(** * Tamper-triage pipeline of [15_edge_anomaly.py]

    A shallow embedding of the resolver, the OCR region extractor, the
    region scorer, the decision rule and the batch row of
    [src/15_edge_anomaly.py], with the properties the specification
    states about them.

    Numbers.  Python [int] is [Z].  The [float32]/[float64] values of the
    program (scores, map entries, confidences, thresholds) are modelled
    as rationals [Q].  The resolved score is rounded to [float32] as the
    program does it ([float32] below: round to nearest, ties to even, 24
    significant bits); the arithmetic on the maps and on the region
    scores is exact.  Infinities and NaN are outside the model.
    Equalities between computed values are stated with [==] ([Qeq]).

    Arrays.  A numpy array is its shape together with its entries in
    row-major order, as numpy stores a C-contiguous array. *)

From Stdlib Require Import String Ascii ZArith QArith Qround Bool Lia Lqa List.
Import ListNotations.

Local Open Scope Z_scope.

(** ** Results of fallible code *)

(** The exceptions the modelled functions raise or let through.
    [KeyError] is the one [load_trufor_outputs] raises: its message is
    the f-string built from the bundle path and [list(npz.keys())], so
    the constructor carries exactly those two values.  [IndexError] is
    numpy's out-of-bounds index.  [AttributeError] is the one raised by
    [img_bgr.shape] in [save_crop] when [img_bgr] is [None].  [External]
    stands for an exception raised by a collaborator (the forensics
    subprocess, the OCR engine, [re], the file system, OpenCV) with its
    message. *)
Inductive exn : Type :=
| KeyError (npz_path : string) (available_keys : list string)
| IndexError
| AttributeError
| External (msg : string).

Inductive result (A : Type) : Type :=
| Ok (a : A)
| Raise (e : exn).

Arguments Ok {A} a.
Arguments Raise {A} e.

Definition bind {A B : Type} (r : result A) (k : A -> result B) : result B :=
  match r with
  | Ok a => k a
  | Raise e => Raise e
  end.

Notation "x <- r ;; k" := (bind r (fun x => k))
  (at level 61, r at next level, right associativity).

(** ** Boxes and clamping *)

Record Box : Type := mkBox {
  box_x : Z;
  box_y : Z;
  box_w : Z;
  box_h : Z;
  box_text : string;
  box_conf : Q
}.

(** [clamp_box]: Python's [max]/[min] on integers. *)
Definition clamp_box (x y w h W H : Z) : Z * Z * Z * Z :=
  let x := Z.max 0 (Z.min x (W - 1)) in
  let y := Z.max 0 (Z.min y (H - 1)) in
  let w := Z.max 1 (Z.min w (W - x)) in
  let h := Z.max 1 (Z.min h (H - y)) in
  (x, y, w, h).

(** ** Python slices *)

(** A slice bound of [a[start:stop]] on a sequence of length [len]: a
    negative bound counts from the end, and every bound is clipped to
    [0 .. len]. *)
Definition slice_bound (len i : Z) : Z :=
  if i <? 0 then Z.max 0 (i + len) else Z.min i len.

Definition py_slice {A : Type} (l : list A) (start stop : Z) : list A :=
  let len := Z.of_nat (length l) in
  let s := slice_bound len start in
  let e := slice_bound len stop in
  firstn (Z.to_nat (e - s)) (skipn (Z.to_nat s) l).

(** ** Arrays *)

Record ndarray : Type := mkArr {
  shape : list nat;
  data : list Q
}.

Definition size (a : ndarray) : nat := fold_right Nat.mul 1%nat (shape a).
Definition ndim (a : ndarray) : nat := length (shape a).

(** An array is well formed when it has as many entries as its shape
    says. *)
Definition wf_array (a : ndarray) : Prop := length (data a) = size a.

(** [n] consecutive rows of [k] entries each. *)
Fixpoint chunks (n k : nat) (l : list Q) : list (list Q) :=
  match n with
  | O => []
  | S n' => firstn k l :: chunks n' k (skipn k l)
  end.

(** The rows of a two-dimensional array. *)
Definition rows (a : ndarray) : list (list Q) :=
  match shape a with
  | [H; W] => chunks H W (data a)
  | _ => []
  end.

(** [crop]: [img[y:y + h, x:x + w]] on the rows of a 2-D array. *)
Definition crop (img : list (list Q)) (x y w h : Z) : list (list Q) :=
  map (fun row => py_slice row x (x + w)) (py_slice img y (y + h)).

(** [loc[i, j]] through the row-major layout; used to state what a crop
    contains independently of slicing. *)
Definition pixel (a : ndarray) (W : nat) (i j : nat) : Q :=
  nth (i * W + j) (data a) 0%Q.

(** ** Rational helpers *)

Definition Qltb (a b : Q) : bool := negb (Qle_bool b a).

(** Python's [max(a, b)] and [min(a, b)], numpy's [maximum]/[minimum]. *)
Definition qmax (a b : Q) : Q := if Qle_bool a b then b else a.
Definition qmin (a b : Q) : Q := if Qle_bool a b then a else b.

(** [np.clip(v, 0, 1)]. *)
Definition clip01 (v : Q) : Q := qmin (qmax v 0) 1.

Definition qsum (l : list Q) : Q := fold_right Qplus 0%Q l.

Definition Qnat (n : nat) : Q := inject_Z (Z.of_nat n).

(** Sorting of the flattened entries, as [np.percentile] does before it
    interpolates. *)
Fixpoint qinsert (v : Q) (l : list Q) : list Q :=
  match l with
  | [] => [v]
  | u :: l' => if Qle_bool v u then v :: l else u :: qinsert v l'
  end.

Definition qsort (l : list Q) : list Q := fold_right qinsert [] l.

(** ** The output bundle and its resolver *)

Local Open Scope string_scope.

(** An [.npz] file read by [np.load]: keys in file order, each with its
    array. *)
Definition bundle : Type := list (string * ndarray).

Definition keys (npz : bundle) : list string := map fst npz.

(** The [want] argument of [_pick_array]: ['score'], ['loc'], ['rel']. *)
Inductive want : Type := WantScore | WantLoc | WantRel.

Definition name_priority (w : want) : list string :=
  match w with
  | WantScore => ["score"; "global"; "integrity"; "sigmoid"]
  | WantLoc => ["map"; "mask"; "loc"; "pred"; "tamper"]
  | WantRel => ["reliab"; "conf"; "uncert"]
  end.

(** [str.lower] on one character.  A character of a [string] is a code
    point below 256; the upper-case letters among them are A to Z and
    the code points 192 to 222 other than 215 (the multiplication
    sign), each 32 below its lower-case letter. *)
Definition lower_ascii (c : ascii) : ascii :=
  let n := nat_of_ascii c in
  if ((65 <=? n)%nat && (n <=? 90)%nat)
     || ((192 <=? n)%nat && (n <=? 222)%nat && negb (n =? 215)%nat)
  then ascii_of_nat (n + 32) else c.

Fixpoint lower (s : string) : string :=
  match s with
  | EmptyString => EmptyString
  | String c s' => String (lower_ascii c) (lower s')
  end.

(** [tok in s] for strings. *)
Fixpoint contains (tok s : string) : bool :=
  if prefix tok s then true
  else match s with
       | EmptyString => false
       | String _ s' => contains tok s'
       end.

Fixpoint first_token (lk : string) (tokens : list string) (i : Z) : Z :=
  match tokens with
  | [] => 999
  | t :: ts => if contains t lk then i else first_token lk ts (i + 1)
  end.

Definition name_rank (w : want) (k : string) : Z :=
  first_token (lower k) (name_priority w) 0.

(** [arr.size == 1]; an entry of an [.npz] file is always an array, so
    [np.isscalar] never holds for it. *)
Definition is_size1 (arr : ndarray) : bool := (size arr =? 1)%nat.

(** [arr[0]] and [arr[-1]] on a three-dimensional array. *)
Definition index_first (arr : ndarray) : result ndarray :=
  match shape arr with
  | d0 :: ds =>
      if (d0 =? 0)%nat then Raise IndexError
      else let n := fold_right Nat.mul 1%nat ds in
           Ok (mkArr ds (firstn n (data arr)))
  | [] => Raise IndexError
  end.

Definition index_last (arr : ndarray) : result ndarray :=
  match shape arr with
  | d0 :: ds =>
      if (d0 =? 0)%nat then Raise IndexError
      else let n := fold_right Nat.mul 1%nat ds in
           Ok (mkArr ds (firstn n (skipn ((d0 - 1) * n) (data arr))))
  | [] => Raise IndexError
  end.

(** [n] entries of [l], one every [c]. *)
Fixpoint stride (n c : nat) (l : list Q) : list Q :=
  match n with
  | O => []
  | S n' => match l with
            | [] => []
            | v :: _ => v :: stride n' c (skipn c l)
            end
  end.

(** [arr[..., 0]] on a three-dimensional array. *)
Definition channel0 (arr : ndarray) : result ndarray :=
  match shape arr with
  | [d0; d1; d2] =>
      if (d2 =? 0)%nat then Raise IndexError
      else Ok (mkArr [d0; d1] (stride (d0 * d1) d2 (data arr)))
  | _ => Raise IndexError
  end.

(** The shape test of [_pick_array] for ['loc'] and ['rel']: the
    candidate array an entry gives, if any. *)
Definition map_candidate (H W : nat) (arr : ndarray) : result (option ndarray) :=
  match shape arr with
  | [d0; d1] =>
      if (d0 =? H)%nat && (d1 =? W)%nat then Ok (Some arr) else Ok None
  | [d0; d1; d2] =>
      if (d1 =? H)%nat && (d2 =? W)%nat then
        a <- (if (d0 =? 1)%nat then index_first arr else index_last arr) ;;
        Ok (Some a)
      else if (d0 =? H)%nat && (d1 =? W)%nat then
        a <- channel0 arr ;;
        Ok (Some a)
      else Ok None
  | _ => Ok None
  end.

Definition candidate : Type := Z * string * ndarray.

Definition cand_rank (c : candidate) : Z := fst (fst c).
Definition cand_arr (c : candidate) : ndarray := snd c.

Definition entry_candidate (w : want) (H W : nat) (arr : ndarray)
  : result (option ndarray) :=
  match w with
  | WantScore => Ok (if is_size1 arr then Some arr else None)
  | _ => map_candidate H W arr
  end.

(** The loop over [keys] that fills [cand]. *)
Fixpoint collect (w : want) (H W : nat) (npz : bundle) : result (list candidate) :=
  match npz with
  | [] => Ok []
  | (k, arr) :: rest =>
      c <- entry_candidate w H W arr ;;
      cs <- collect w H W rest ;;
      Ok (match c with
          | Some a => (name_rank w k, k, a) :: cs
          | None => cs
          end)
  end.

(** [cand.sort(key=lambda t: t[0])]: a stable sort on the rank. *)
Fixpoint insert_cand (c : candidate) (l : list candidate) : list candidate :=
  match l with
  | [] => [c]
  | d :: l' =>
      if (cand_rank c <=? cand_rank d)%Z then c :: l else d :: insert_cand c l'
  end.

Definition sort_cand (l : list candidate) : list candidate :=
  fold_right insert_cand [] l.

Definition _pick_array (npz : bundle) (w : want) (H W : nat)
  : result (option ndarray) :=
  cand <- collect w H W npz ;;
  match sort_cand cand with
  | [] => Ok None
  | c :: _ => Ok (Some (cand_arr c))
  end.

(** [np.percentile(m, q)] with the default linear interpolation, on the
    flattened entries. *)
Definition percentile (l : list Q) (q : Q) : Q :=
  let s := qsort l in
  let n := Z.of_nat (List.length l) in
  let pos := (inject_Z (n - 1) * q / 100)%Q in
  let k := Qfloor pos in
  let f := (pos - inject_Z k)%Q in
  let a := nth (Z.to_nat k) s 0%Q in
  let b := nth (Z.to_nat (Z.min (k + 1) (n - 1))) s 0%Q in
  (a + (b - a) * f)%Q.

(** The [1e-6] of [norm01]. *)
Definition eps : Q := 1 # 1000000.

Definition norm01 (m : ndarray) : ndarray :=
  let lo := percentile (data m) 1 in
  let hi := percentile (data m) 99 in
  if Qltb (hi - lo) eps then mkArr (shape m) (map clip01 (data m))
  else mkArr (shape m) (map (fun v => clip01 ((v - lo) / (hi - lo))) (data m)).

(** [np.ones((H, W))]. *)
Definition ones (H W : nat) : ndarray := mkArr [H; W] (repeat 1%Q (H * W)).

(** Rounding to the nearest integer, ties to the even one. *)
Definition round_half_even (q : Q) : Z :=
  let f := Qfloor q in
  match ((q - inject_Z f) ?= (1 # 2))%Q with
  | Lt => f
  | Gt => f + 1
  | Eq => if Z.even f then f else f + 1
  end.

(** The binary exponent of [q], for [q] other than 0: the [e] with
    [2^e <= |q| < 2^(e+1)]. *)
Definition ilog2 (q : Q) : Z :=
  let n := Z.abs (Qnum q) in
  let d := Zpos (Qden q) in
  let e := Z.log2 n - Z.log2 d in
  if (if (0 <=? e)%Z then (d * 2 ^ e <=? n)%Z else (d <=? n * 2 ^ (- e))%Z)
  then e else e - 1.

(** [astype(np.float32)] and [np.array(v, dtype=np.float32)] on one
    value: the nearest number with 24 significant bits (exponent at
    least -126, so that small values are rounded as subnormals), ties
    to the even significand.  Values beyond the largest [float32]
    become infinities in the program and are outside the model. *)
Definition float32 (q : Q) : Q :=
  if Qeq_bool q 0 then 0%Q
  else
    let e := Z.max (ilog2 q) (-126) in
    if (e <=? 23)%Z
    then Qred (inject_Z (round_half_even (q * inject_Z (2 ^ (23 - e))))
               / inject_Z (2 ^ (23 - e)))
    else Qred (inject_Z (round_half_even (q / inject_Z (2 ^ (e - 23))))
               * inject_Z (2 ^ (e - 23))).

(** The dictionary [load_trufor_outputs] returns. *)
Record Outputs : Type := mkOutputs {
  out_score : Q;
  out_loc : ndarray;
  out_rel : ndarray
}.

(** The last-resort search for a size-1 entry. *)
Definition any_size1 (npz : bundle) : option ndarray :=
  option_map snd (find (fun kv => is_size1 (snd kv)) npz).

(** The body of [load_trufor_outputs] after the three picks.  The score
    is the first value of the picked entry, cast to [float32] (by
    [_pick_array], and again in the returned dictionary). *)
Definition resolve_picked (npz_path : string) (npz : bundle) (H W : nat)
  (score_arr loc rel : option ndarray) : result Outputs :=
  let score_arr :=
    match score_arr with
    | Some a => Some a
    | None => any_size1 npz
    end in
  match score_arr, loc with
  | Some sa, Some l =>
      let score := float32 (nth 0 (data sa) 0%Q) in
      let r := match rel with
               | Some r => r
               | None => ones H W
               end in
      Ok (mkOutputs score (norm01 l) (norm01 r))
  | _, _ => Raise (KeyError npz_path (keys npz))
  end.

Definition load_trufor_outputs (npz_path : string) (npz : bundle) (H W : nat)
  : result Outputs :=
  score_arr <- _pick_array npz WantScore H W ;;
  loc <- _pick_array npz WantLoc H W ;;
  rel <- _pick_array npz WantRel H W ;;
  resolve_picked npz_path npz H W score_arr loc rel.

(** ** OCR tokens and line regions *)

(** One index [i] of the dictionary [pytesseract.image_to_data] returns.
    [tok_conf] is [None] when [float(ocr["conf"][i])] raises. *)
Record Token : Type := mkToken {
  tok_text : string;
  tok_conf : option Q;
  tok_left : Z;
  tok_top : Z;
  tok_width : Z;
  tok_height : Z;
  tok_block : Z;
  tok_par : Z;
  tok_line : Z
}.

(** [str.isspace] and [str.isdigit] on the code points below 256, the
    characters a [string] holds: white space is 9 to 13, 28 to 32, 133
    (next line) and 160 (no-break space); digits are 0 to 9 and the
    superscripts 178, 179 and 185.  Text with code points from 256 on
    is outside the model. *)
Definition is_space (c : ascii) : bool :=
  let n := nat_of_ascii c in
  ((9 <=? n)%nat && (n <=? 13)%nat) || ((28 <=? n)%nat && (n <=? 32)%nat)
  || (n =? 133)%nat || (n =? 160)%nat.

Definition is_digit (c : ascii) : bool :=
  let n := nat_of_ascii c in
  ((48 <=? n)%nat && (n <=? 57)%nat)
  || (n =? 178)%nat || (n =? 179)%nat || (n =? 185)%nat.

Fixpoint lstrip (s : string) : string :=
  match s with
  | EmptyString => EmptyString
  | String c s' => if is_space c then lstrip s' else s
  end.

Fixpoint rstrip (s : string) : string :=
  match s with
  | EmptyString => EmptyString
  | String c s' =>
      match rstrip s' with
      | EmptyString => if is_space c then EmptyString else String c EmptyString
      | r => String c r
      end
  end.

(** [str.strip()]. *)
Definition strip (s : string) : string := rstrip (lstrip s).

(** [any(ch.isdigit() for ch in text)]. *)
Fixpoint has_digit (s : string) : bool :=
  match s with
  | EmptyString => false
  | String c s' => is_digit c || has_digit s'
  end.

(** A value of the [lines] dictionary. *)
Record Line : Type := mkLine {
  ln_x1 : Z;
  ln_y1 : Z;
  ln_x2 : Z;
  ln_y2 : Z;
  ln_words : list string;
  ln_conf_sum : Q;
  ln_conf_n : Z
}.

Definition line_key : Type := Z * Z * Z.

Definition key_eqb (a b : line_key) : bool :=
  let '(a1, a2, a3) := a in
  let '(b1, b2, b3) := b in
  (a1 =? b1)%Z && (a2 =? b2)%Z && (a3 =? b3)%Z.

(** The [lines] dictionary: Python dictionaries keep insertion order, and
    updating a present key keeps its place. *)
Definition lines_dict : Type := list (line_key * Line).

Definition merge_line (d : Line) (x y w h : Z) (txt : string) (conf : Q) : Line :=
  mkLine (Z.min (ln_x1 d) x) (Z.min (ln_y1 d) y)
         (Z.max (ln_x2 d) (x + w)) (Z.max (ln_y2 d) (y + h))
         (ln_words d ++ [txt])%list (ln_conf_sum d + conf)%Q (ln_conf_n d + 1).

Fixpoint add_to_lines (key : line_key) (x y w h : Z) (txt : string) (conf : Q)
  (lines : lines_dict) : lines_dict :=
  match lines with
  | [] => [(key, mkLine x y (x + w) (y + h) [txt] conf 1)]
  | (k, d) :: rest =>
      if key_eqb k key then (k, merge_line d x y w h txt conf) :: rest
      else (k, d) :: add_to_lines key x y w h txt conf rest
  end.

(** [float(ocr["conf"][i])], or [-1.0] when the conversion raises. *)
Definition conf_of (t : Token) : Q :=
  match tok_conf t with
  | Some c => c
  | None => (-1)%Q
  end.

(** One iteration of the token loop of [ocr_line_boxes]. *)
Definition token_step (min_conf : Q) (min_size : Z) (lines : lines_dict)
  (t : Token) : lines_dict :=
  let txt := strip (tok_text t) in
  if (txt =? "")%string then lines
  else
    let conf := conf_of t in
    if Qltb conf min_conf then lines
    else
      let x := tok_left t in
      let y := tok_top t in
      let w := tok_width t in
      let h := tok_height t in
      if (w <? min_size)%Z || (h <? min_size)%Z then lines
      else add_to_lines (tok_block t, tok_par t, tok_line t) x y w h txt conf lines.

(** The body of the loop over [lines.values()]. *)
Definition line_box (min_size : Z) (d : Line) : option Box :=
  let text := strip (String.concat " " (ln_words d)) in
  if negb (has_digit text) then None
  else
    let w := ln_x2 d - ln_x1 d in
    let h := ln_y2 d - ln_y1 d in
    if (w <? min_size)%Z || (h <? min_size)%Z then None
    else
      let conf := (ln_conf_sum d / inject_Z (Z.max 1 (ln_conf_n d)))%Q in
      Some (mkBox (ln_x1 d) (ln_y1 d) w h text conf).

Fixpoint boxes_of_lines (min_size : Z) (lines : lines_dict) : list Box :=
  match lines with
  | [] => []
  | (_, d) :: rest =>
      match line_box min_size d with
      | Some b => b :: boxes_of_lines min_size rest
      | None => boxes_of_lines min_size rest
      end
  end.

(** [ocr_line_boxes] on the token list the OCR engine returned. *)
Definition ocr_line_boxes (tokens : list Token) (min_conf : Q) (min_size : Z)
  : list Box :=
  boxes_of_lines min_size (fold_left (token_step min_conf min_size) tokens []).

(** ** Region scorer *)

Definition mean2 (m : list (list Q)) : Q :=
  let v := List.concat m in
  (qsum v / Qnat (List.length v))%Q.

Fixpoint zip_with (f : Q -> Q -> Q) (a b : list Q) : list Q :=
  match a, b with
  | u :: a', v :: b' => f u v :: zip_with f a' b'
  | _, _ => []
  end.

(** Entry-wise product of two crops of the same shape. *)
Fixpoint mul2 (a b : list (list Q)) : list (list Q) :=
  match a, b with
  | ra :: a', rb :: b' => zip_with Qmult ra rb :: mul2 a' b'
  | _, _ => []
  end.

(** [(r >= rel_min).astype(np.float32)]. *)
Definition mask_of (rel_min : Q) (r : list (list Q)) : list (list Q) :=
  map (map (fun v => if Qle_bool rel_min v then 1%Q else 0%Q)) r.

(** [roi_anomaly_score].  [H, W = loc.shape] needs a two-dimensional
    array; Python raises a [ValueError] otherwise, which the model
    reports as [External]. *)
Definition roi_anomaly_score (loc rel : ndarray) (roi : Box) (rel_min : Q)
  : result Q :=
  match shape loc with
  | [H; W] =>
      let '(x, y, w, h) :=
        clamp_box (box_x roi) (box_y roi) (box_w roi) (box_h roi)
                  (Z.of_nat W) (Z.of_nat H) in
      let l := crop (rows loc) x y w h in
      let r := crop (rows rel) x y w h in
      let m := mask_of rel_min r in
      if Qltb (mean2 m) (15 # 100) then Ok (mean2 (mul2 l r) * (1 # 4))%Q
      else Ok (mean2 (mul2 l m))
  | _ => Raise (External "ValueError")
  end.

(** The patch [save_crop] writes: the padded box clamped to the image. *)
Definition save_crop (H W : nat) (roi : Box) (pad : Z) : Z * Z * Z * Z :=
  clamp_box (box_x roi - pad) (box_y roi - pad)
            (box_w roi + 2 * pad) (box_h roi + 2 * pad)
            (Z.of_nat W) (Z.of_nat H).

(** ** Decision and batch row *)

(** What the collaborators of one image give: whether the file exists,
    what [cv2.imread] returns (the image shape, or [None]), what
    [run_trufor] returns or raises, the content of the [.npz] file, and
    what the OCR engine returns or raises; then, for the export step of
    [main]: the crop name the f-string builds ([safe_filename] calls
    [re.sub], which raises when [task_id] is not a string), what the
    second [cv2.imread] returns, and what creating the directory and
    writing the file do. *)
Record Env : Type := mkEnv {
  env_exists : bool;
  env_imread : option (nat * nat);
  env_trufor : result string;
  env_npz : bundle;
  env_ocr : result (list Token);
  env_crop_name : result string;
  env_reread : option (nat * nat);
  env_write : result unit
}.

(** The dictionary [analyze_image] returns: the two-key one of an
    unreadable image, or the full one. *)
Inductive Analysis : Type :=
| Unreadable
| Analysed (status : string) (trufor_score max_roi_score : Q) (n_rois : nat)
           (best_roi : option Box) (npz_path : string).

(** The loop over [rois]: running maximum and its region. *)
Fixpoint score_rois (loc rel : ndarray) (rel_min : Q) (rois : list Box)
  (max_roi : Q) (best_roi : option Box) : result (Q * option Box) :=
  match rois with
  | [] => Ok (max_roi, best_roi)
  | roi :: rest =>
      s <- roi_anomaly_score loc rel roi rel_min ;;
      if Qltb max_roi s then score_rois loc rel rel_min rest s (Some roi)
      else score_rois loc rel rel_min rest max_roi best_roi
  end.

(** [flagged = (score >= global_thresh) or (max_roi >= roi_thresh)]. *)
Definition flagged (score max_roi global_thresh roi_thresh : Q) : bool :=
  Qle_bool global_thresh score || Qle_bool roi_thresh max_roi.

Definition analyze_image (env : Env) (min_conf : Q) (min_size : Z)
  (global_thresh roi_thresh rel_min : Q) : result Analysis :=
  match env_imread env with
  | None => Ok Unreadable
  | Some (H, W) =>
      npz_path <- env_trufor env ;;
      outs <- load_trufor_outputs npz_path (env_npz env) H W ;;
      let score := out_score outs in
      tokens <- env_ocr env ;;
      let rois := ocr_line_boxes tokens min_conf min_size in
      mb <- score_rois (out_loc outs) (out_rel outs) rel_min rois 0%Q None ;;
      let '(max_roi, best_roi) := mb in
      Ok (Analysed
            (if flagged score max_roi global_thresh roi_thresh
             then "flagged" else "ok")
            score max_roi (List.length rois) best_roi npz_path)
  end.

(** The [error] column of a report row. *)
Inductive error_col : Type :=
| NoError
| Message (msg : string)
| Exception (e : exn).

(** One row of the report, with the patch written by [save_crop] when a
    crop is exported ([crop_path] is non-empty exactly then).  [None] in
    a score column is [np.nan]. *)
Record Row : Type := mkRow {
  row_status : string;
  row_error : error_col;
  row_trufor_score : option Q;
  row_max_roi_score : option Q;
  row_n_rois : nat;
  row_npz_path : string;
  row_best_roi_text : string;
  row_best_roi_conf : option Q;
  row_crop : option (Z * Z * Z * Z)
}.

Definition error_row (e : error_col) : Row :=
  mkRow "error" e None None 0 "" "" None None.

(** The export step of [main]: the crop name is built, the image is
    read again and [save_crop] writes the patch.  Each of the three can
    raise. *)
Definition export_crop (env : Env) (roi : Box) : result (Z * Z * Z * Z) :=
  _ <- env_crop_name env ;;
  match env_reread env with
  | None => Raise AttributeError
  | Some (H, W) =>
      _ <- env_write env ;;
      Ok (save_crop H W roi 28)
  end.

(** The body of the loop of [main] for one image path.  The call of
    [analyze_image] and the export step are both inside the [try]: an
    exception of either gives the error row. *)
Definition process_image (env : Env) (min_conf : Q) (min_size : Z)
  (global_thresh roi_thresh rel_min : Q) : Row :=
  if negb (env_exists env) then error_row (Message "File not found")
  else
    match analyze_image env min_conf min_size global_thresh roi_thresh rel_min with
    | Raise e => error_row (Exception e)
    | Ok Unreadable =>
        mkRow "error" (Message "Could not read image") None None 0 "" "" None None
    | Ok (Analysed status score max_roi n best_roi npz_path) =>
        let exported :=
          match best_roi with
          | Some roi =>
              if (status =? "flagged")%string
              then (p <- export_crop env roi ;; Ok (Some p))
              else Ok None
          | None => Ok None
          end in
        match exported with
        | Raise e => error_row (Exception e)
        | Ok written =>
            mkRow status NoError (Some score) (Some max_roi) n npz_path
                  (match best_roi with
                   | Some roi => substring 0 80 (box_text roi)
                   | None => ""
                   end)
                  (match best_roi with
                   | Some roi => Some (box_conf roi)
                   | None => None
                   end)
                  written
        end
    end.

(** ** The scorer as the specification words it *)

(** The values [f i j] over the pixels of the box [(x, y, w, h)], row by
    row. *)
Definition region_values (f : nat -> nat -> Q) (x y w h : nat) : list Q :=
  flat_map (fun i => map (fun j => f (y + i) (x + j))%nat (seq 0 w)) (seq 0 h).

(** Mean over the box of [f]. *)
Definition region_mean (f : nat -> nat -> Q) (x y w h : nat) : Q :=
  (qsum (region_values f x y w h) / Qnat (w * h))%Q.

(** The 0/1 indicator of [reliabilityMap >= relMin]. *)
Definition reliable (rel : ndarray) (W : nat) (rel_min : Q) (i j : nat) : Q :=
  if Qle_bool rel_min (pixel rel W i j) then 1%Q else 0%Q.

(** Mean of the reliability mask over the box. *)
Definition spec_coverage (rel : ndarray) (W : nat) (rel_min : Q)
  (x y w h : nat) : Q :=
  region_mean (reliable rel W rel_min) x y w h.

(** Mean of [localizationMap * mask] over the box. *)
Definition spec_masked_mean (loc rel : ndarray) (W : nat) (rel_min : Q)
  (x y w h : nat) : Q :=
  region_mean (fun i j => pixel loc W i j * reliable rel W rel_min i j)%Q x y w h.


(** The table of [f] over the box, as rows. *)
Definition tabulate (f : nat -> nat -> Q) (x y w h : nat) : list (list Q) :=
  map (fun i => map (fun j => f (y + i) (x + j))%nat (seq 0 w)) (seq 0 h).

(** A value in the closed unit interval. *)
Definition in01 (v : Q) : Prop := (0 <= v /\ v <= 1)%Q.

(** ** Roles a bundle can fill *)

(** The bundle has a size-1 entry. *)
Definition has_score (npz : bundle) : bool :=
  existsb (fun kv => is_size1 (snd kv)) npz.

(** The entry passes the shape test for an [H] by [W] map. *)
Definition is_map (H W : nat) (arr : ndarray) : bool :=
  match map_candidate H W arr with
  | Ok (Some _) => true
  | _ => false
  end.

Definition has_map (H W : nat) (npz : bundle) : bool :=
  existsb (fun kv => is_map H W (snd kv)) npz.

(** No three-dimensional entry of the bundle is empty (has an axis of
    length 0). *)
Definition no_empty_3d (npz : bundle) : Prop :=
  Forall (fun kv => ndim (snd kv) = 3%nat -> size (snd kv) <> 0%nat) npz.

(** The key contains one of the reliability tokens. *)
Definition names_reliability (k : string) : bool :=
  negb (name_rank WantRel k =? 999)%Z.

(** ** Tokens the extractor keeps *)

(** The token passes the three filters of the token loop: non-empty
    stripped text, confidence at least [min_conf], width and height at
    least [min_size]. *)
Definition kept (min_conf : Q) (min_size : Z) (t : Token) : bool :=
  negb (strip (tok_text t) =? "")%string &&
  negb (Qltb (conf_of t) min_conf) &&
  negb ((tok_width t <? min_size)%Z || (tok_height t <? min_size)%Z).

Definition token_key (t : Token) : line_key :=
  (tok_block t, tok_par t, tok_line t).

(** The line a list of kept tokens of one key accumulates, from the
    line [d] of the first of them. *)
Definition merge_tokens (d : Line) (ts : list Token) : Line :=
  fold_left (fun d t => merge_line d (tok_left t) (tok_top t) (tok_width t)
                                   (tok_height t) (strip (tok_text t)) (conf_of t))
            ts d.

Definition first_line (t : Token) : Line :=
  mkLine (tok_left t) (tok_top t) (tok_left t + tok_width t)
         (tok_top t + tok_height t) [strip (tok_text t)] (conf_of t) 1.

(** A non-empty string with no white space at either end. *)
Definition clean (s : string) : Prop :=
  s <> "" /\
  match s with
  | EmptyString => True
  | String c _ => is_space c = false
  end /\
  rstrip s = s.

(** ** File names *)

(** The characters the pattern of [safe_filename] keeps: letters,
    digits, [.], [_] and [-]. *)
Definition is_safe_char (c : ascii) : bool :=
  let n := nat_of_ascii c in
  ((65 <=? n)%nat && (n <=? 90)%nat) || ((97 <=? n)%nat && (n <=? 122)%nat) ||
  ((48 <=? n)%nat && (n <=? 57)%nat) ||
  (n =? 46)%nat || (n =? 95)%nat || (n =? 45)%nat.

(** [re.sub(r"[^A-Za-z0-9._-]+", "_", s)]: every maximal run of other
    characters becomes one underscore, written when the run ends. *)
Fixpoint safe_filename (s : string) : string :=
  match s with
  | EmptyString => EmptyString
  | String c s' =>
      if is_safe_char c then String c (safe_filename s')
      else match s' with
           | EmptyString => "_"
           | String c' _ =>
               if is_safe_char c' then String "_" (safe_filename s')
               else safe_filename s'
           end
  end.

Fixpoint all_safe (s : string) : bool :=
  match s with
  | EmptyString => true
  | String c s' => is_safe_char c && all_safe s'
  end.

(** ** Entries the picker cannot index *)

(** A three-dimensional entry that matches (H, W) on its last two axes,
    or else on its first two, and has no channel along the remaining
    axis: [arr[-1]], respectively [arr[..., 0]], is out of bounds. *)
Definition empty_channels (H W : nat) (arr : ndarray) : bool :=
  match shape arr with
  | [d0; d1; d2] =>
      if (d1 =? H)%nat && (d2 =? W)%nat then (d0 =? 0)%nat
      else if (d0 =? H)%nat && (d1 =? W)%nat then (d2 =? 0)%nat
      else false
  | _ => false
  end.

Definition has_empty_channels (H W : nat) (npz : bundle) : bool :=
  existsb (fun kv => empty_channels H W (snd kv)) npz.

(** ** Lines the token loop builds *)


(** ** Lines, read from the tokens *)

(** The tokens of line [K] that pass the three filters of the token
    loop, in encounter order. *)
Definition line_tokens (min_conf : Q) (min_size : Z) (K : line_key)
  (tokens : list Token) : list Token :=
  filter (fun t => kept min_conf min_size t && key_eqb K (token_key t)) tokens.

(** The region the kept tokens [ts] of one line give, if any. *)
Definition line_region (min_size : Z) (ts : list Token) : option Box :=
  match ts with
  | [] => None
  | t0 :: rest => line_box min_size (merge_tokens (first_line t0) rest)
  end.

(** The line identities of a list of tokens, each once, in order of
    first occurrence. *)
Fixpoint first_keys (ts : list Token) : list line_key :=
  match ts with
  | [] => []
  | t :: rest =>
      token_key t
      :: filter (fun k => negb (key_eqb k (token_key t))) (first_keys rest)
  end.

Definition key_in (k : line_key) (l : list line_key) : bool :=
  existsb (key_eqb k) l.

(** The stripped texts of a list of tokens, joined by single spaces. *)
Definition joined_text (ts : list Token) : string :=
  String.concat " " (map (fun t => strip (tok_text t)) ts).

(** The regions of the lines [ks], in that order. *)
Definition regions_of_lines (min_conf : Q) (min_size : Z)
  (tokens : list Token) (ks : list line_key) : list Box :=
  flat_map (fun K => match line_region min_size
                             (line_tokens min_conf min_size K tokens) with
                     | Some b => [b]
                     | None => []
                     end) ks.

(** ** Example inputs *)

(** A bundle of a 2 by 2 image: a score, a localization map and a
    reliability map under usual names. *)
Definition ex_npz : bundle :=
  [("score", mkArr [] [5 # 16]);
   ("map", mkArr [2; 2]%nat [0; 1; 1 # 2; 1]%Q);
   ("conf", mkArr [2; 2]%nat [1; 1; 0; 1]%Q)].

Definition ex_token (s : string) (x y : Z) (line : Z) : Token :=
  mkToken s (Some 90%Q) x y 1 1 1 1 line.

(** Three lines of digits: the first two cover the same pixel. *)
Definition ex_tokens : list Token :=
  [ex_token "7h" 1 0 1; ex_token "35m" 1 0 2; ex_token "12" 0 1 3].

Definition ex_env : Env :=
  mkEnv true (Some (2, 2)%nat) (Ok "out/a.png.npz") ex_npz (Ok ex_tokens)
        (Ok "t1_total_roi1.000_g0.300.png") (Some (2, 2)%nat) (Ok tt).

(** The same image when the OCR engine finds nothing, and when it
    fails. *)
Definition ex_env_no_text : Env :=
  mkEnv true (Some (2, 2)%nat) (Ok "out/a.png.npz") ex_npz (Ok [])
        (Ok "t1_total_roi0.000_g0.300.png") (Some (2, 2)%nat) (Ok tt).

Definition ex_env_ocr_fails : Env :=
  mkEnv true (Some (2, 2)%nat) (Ok "out/a.png.npz") ex_npz
        (Raise (External "tesseract failed"))
        (Ok "t1_total_roi0.000_g0.300.png") (Some (2, 2)%nat) (Ok tt).

(** The first image when it cannot be read again for the export. *)
Definition ex_env_export_fails : Env :=
  mkEnv true (Some (2, 2)%nat) (Ok "out/a.png.npz") ex_npz (Ok ex_tokens)
        (Ok "t1_total_roi1.000_g0.300.png") None (Ok tt).

(** A row of 51 values: one 0, twenty-five 1 and twenty-five 1.5. *)
Definition ex_map51 : ndarray :=
  mkArr [1; 51]%nat (0 :: repeat 1 25 ++ repeat (3 # 2) 25)%Q%list.

(** * Properties *)

(** ** Clamping *)

Lemma clamp_box_bounds (x y w h W H : Z) :
  1 <= W -> 1 <= H ->
  let '(x', y', w', h') := clamp_box x y w h W H in
  0 <= x' <= W - 1 /\ 0 <= y' <= H - 1 /\ 1 <= w' /\ 1 <= h' /\
  x' + w' <= W /\ y' + h' <= H.
Proof.
  intros HW HH. unfold clamp_box. lia.
Qed.

(** ** Slices, rows and crops *)

Lemma py_slice_in_bounds {A : Type} (l : list A) (s n : nat) :
  (s + n <= List.length l)%nat ->
  py_slice l (Z.of_nat s) (Z.of_nat s + Z.of_nat n) = firstn n (skipn s l).
Proof.
  intros Hb. unfold py_slice, slice_bound.
  destruct (Z.ltb_spec (Z.of_nat s) 0); [lia|].
  destruct (Z.ltb_spec (Z.of_nat s + Z.of_nat n) 0); [lia|].
  rewrite !Z.min_l by lia.
  replace (Z.of_nat s + Z.of_nat n - Z.of_nat s) with (Z.of_nat n) by lia.
  now rewrite !Nat2Z.id.
Qed.

Lemma firstn_skipn_nth {A : Type} (d : A) (l : list A) (n s : nat) :
  (s + n <= List.length l)%nat ->
  firstn n (skipn s l) = map (fun k => nth (s + k) l d) (seq 0 n).
Proof.
  revert s. induction n as [|n IH]; intros s Hb; [reflexivity|].
  assert (Hs : List.length (skipn s l) = (List.length l - s)%nat)
    by apply length_skipn.
  destruct (skipn s l) as [|a t] eqn:E.
  - cbn in Hs. lia.
  - cbn [firstn seq map]. f_equal.
    + rewrite Nat.add_0_r.
      assert (Hn : nth s l d = nth 0 (skipn s l) d).
      { rewrite nth_skipn. f_equal. lia. }
      now rewrite Hn, E.
    + assert (Et : t = skipn (S s) l).
      { change (S s) with (1 + s)%nat. rewrite <- skipn_skipn, E. reflexivity. }
      rewrite Et, IH by lia.
      rewrite <- seq_shift, map_map.
      apply map_ext. intros k. f_equal. lia.
Qed.

Lemma chunks_rows (n k : nat) (l : list Q) :
  chunks n k l = map (fun i => firstn k (skipn (i * k) l)) (seq 0 n).
Proof.
  revert l. induction n as [|n IH]; intros l; [reflexivity|].
  cbn [chunks seq map]. f_equal.
  rewrite IH, <- seq_shift, map_map.
  apply map_ext. intros i. rewrite skipn_skipn. f_equal. f_equal. lia.
Qed.

Lemma length_chunks (n k : nat) (l : list Q) : List.length (chunks n k l) = n.
Proof. rewrite chunks_rows, length_map, length_seq. reflexivity. Qed.

Lemma nth_map_seq {A : Type} (f : nat -> A) (d : A) (n i : nat) :
  (i < n)%nat -> nth i (map f (seq 0 n)) d = f i.
Proof.
  intros Hi. rewrite (nth_indep _ d (f 0%nat)) by now rewrite length_map, length_seq.
  rewrite (map_nth f (seq 0 n) 0%nat i), seq_nth by assumption. reflexivity.
Qed.

(** The crop of an [H] by [W] array at an in-bounds box, pixel by
    pixel. *)
Lemma crop_pixels (a : ndarray) (H W x y w h : nat) :
  shape a = [H; W] -> wf_array a ->
  (x + w <= W)%nat -> (y + h <= H)%nat ->
  crop (rows a) (Z.of_nat x) (Z.of_nat y) (Z.of_nat w) (Z.of_nat h)
  = tabulate (pixel a W) x y w h.
Proof.
  intros Hs Hwf Hx Hy. unfold crop, rows, tabulate. rewrite Hs.
  unfold wf_array, size in Hwf. rewrite Hs in Hwf. cbn in Hwf.
  rewrite Nat.mul_1_r in Hwf.
  rewrite py_slice_in_bounds by now rewrite length_chunks.
  rewrite (firstn_skipn_nth []) by now rewrite length_chunks.
  rewrite map_map. apply map_ext_in. intros i Hi. apply in_seq in Hi.
  rewrite chunks_rows, nth_map_seq by lia.
  assert (Hrow : ((y + i) * W + W <= List.length (data a))%nat) by nia.
  assert (Hlen : List.length (firstn W (skipn ((y + i) * W) (data a))) = W).
  { rewrite length_firstn, length_skipn. lia. }
  rewrite py_slice_in_bounds by lia.
  rewrite (firstn_skipn_nth 0%Q) by lia.
  apply map_ext_in. intros j Hj. apply in_seq in Hj.
  rewrite (firstn_skipn_nth 0%Q) by lia.
  rewrite nth_map_seq by lia. unfold pixel. f_equal; lia.
Qed.

Lemma mask_of_tabulate (rel : ndarray) (W : nat) (rel_min : Q) (x y w h : nat) :
  mask_of rel_min (tabulate (pixel rel W) x y w h)
  = tabulate (reliable rel W rel_min) x y w h.
Proof.
  unfold mask_of, tabulate, reliable. rewrite map_map.
  apply map_ext. intros i. now rewrite map_map.
Qed.

Lemma zip_with_map (f g : nat -> Q) (l : list nat) :
  zip_with Qmult (map f l) (map g l) = map (fun j => f j * g j)%Q l.
Proof. induction l as [|a l IH]; [reflexivity|]. cbn. now rewrite IH. Qed.

Lemma mul2_tabulate (f g : nat -> nat -> Q) (x y w h : nat) :
  mul2 (tabulate f x y w h) (tabulate g x y w h)
  = tabulate (fun i j => f i j * g i j)%Q x y w h.
Proof.
  unfold tabulate. induction (seq 0 h) as [|i l IH]; [reflexivity|].
  cbn [map mul2]. now rewrite IH, zip_with_map.
Qed.

Lemma concat_tabulate (f : nat -> nat -> Q) (x y w h : nat) :
  List.concat (tabulate f x y w h) = region_values f x y w h.
Proof. unfold tabulate, region_values. now rewrite flat_map_concat_map. Qed.

Lemma length_region_values (f : nat -> nat -> Q) (x y w h : nat) :
  List.length (region_values f x y w h) = (w * h)%nat.
Proof.
  unfold region_values.
  assert (G : forall l : list nat,
             List.length
               (flat_map (fun i => map (fun j => f (y + i) (x + j))%nat (seq 0 w)) l)
             = (w * List.length l)%nat).
  { induction l as [|i l IH]; cbn [flat_map List.length]; [lia|].
    rewrite length_app, IH, length_map, length_seq. lia. }
  now rewrite G, length_seq.
Qed.

Lemma mean2_tabulate (f : nat -> nat -> Q) (x y w h : nat) :
  mean2 (tabulate f x y w h) = region_mean f x y w h.
Proof.
  unfold mean2, region_mean.
  now rewrite concat_tabulate, length_region_values.
Qed.

(** The clamped box of a region, as natural numbers. *)
Lemma clamp_box_nat (bx by_ bw bh : Z) (W H : nat) :
  (1 <= W)%nat -> (1 <= H)%nat ->
  exists x y w h : nat,
    clamp_box bx by_ bw bh (Z.of_nat W) (Z.of_nat H)
    = (Z.of_nat x, Z.of_nat y, Z.of_nat w, Z.of_nat h) /\
    (x + w <= W)%nat /\ (y + h <= H)%nat /\ (1 <= w)%nat /\ (1 <= h)%nat.
Proof.
  intros HW HH.
  pose proof (clamp_box_bounds bx by_ bw bh (Z.of_nat W) (Z.of_nat H)) as Hb.
  destruct (clamp_box bx by_ bw bh (Z.of_nat W) (Z.of_nat H))
    as [[[x y] w] h].
  specialize (Hb ltac:(lia) ltac:(lia)).
  exists (Z.to_nat x), (Z.to_nat y), (Z.to_nat w), (Z.to_nat h).
  rewrite !Z2Nat.id by lia. repeat split; lia.
Qed.

(** What [roi_anomaly_score] computes on maps of the image's shape, in
    terms of the means over the clamped box. *)
Lemma roi_anomaly_score_eq (loc rel : ndarray) (H W : nat) (roi : Box)
  (rel_min : Q) (x y w h : nat) :
  shape loc = [H; W] -> shape rel = [H; W] -> wf_array loc -> wf_array rel ->
  clamp_box (box_x roi) (box_y roi) (box_w roi) (box_h roi)
            (Z.of_nat W) (Z.of_nat H)
  = (Z.of_nat x, Z.of_nat y, Z.of_nat w, Z.of_nat h) ->
  (x + w <= W)%nat -> (y + h <= H)%nat ->
  roi_anomaly_score loc rel roi rel_min
  = Ok (if Qltb (spec_coverage rel W rel_min x y w h) (15 # 100)
        then (region_mean (fun i j => pixel loc W i j * pixel rel W i j) x y w h
              * (1 # 4))%Q
        else spec_masked_mean loc rel W rel_min x y w h).
Proof.
  intros Hsl Hsr Hwl Hwr Hc Hx Hy.
  unfold roi_anomaly_score. rewrite Hsl, Hc.
  rewrite (crop_pixels loc H W), (crop_pixels rel H W) by assumption.
  rewrite mask_of_tabulate, !mul2_tabulate, !mean2_tabulate.
  unfold spec_coverage, spec_masked_mean.
  now destruct (Qltb (region_mean (reliable rel W rel_min) x y w h) (15 # 100)).
Qed.

(** ** Means of values in the unit interval *)

Lemma Qltb_lt (a b : Q) : Qltb a b = true <-> (a < b)%Q.
Proof.
  unfold Qltb. rewrite negb_true_iff. split.
  - intros Hf. apply Qnot_le_lt. intros Hle.
    apply Qle_bool_iff in Hle. congruence.
  - intros Hlt. destruct (Qle_bool b a) eqn:E; [|reflexivity].
    apply Qle_bool_iff in E. exfalso. apply (Qlt_not_le _ _ Hlt E).
Qed.

Lemma Qltb_ge (a b : Q) : Qltb a b = false <-> (b <= a)%Q.
Proof.
  unfold Qltb. rewrite negb_false_iff. apply Qle_bool_iff.
Qed.

Lemma Qnat_S (n : nat) : (Qnat (S n) == Qnat n + 1)%Q.
Proof.
  unfold Qnat. rewrite Nat2Z.inj_succ, <- Z.add_1_r, inject_Z_plus. reflexivity.
Qed.

Lemma Qnat_pos (n : nat) : (0 < n)%nat -> (0 < Qnat n)%Q.
Proof.
  intros Hn. unfold Qnat. change 0%Q with (inject_Z 0).
  rewrite <- Zlt_Qlt. lia.
Qed.

Lemma qsum_in01 (l : list Q) :
  Forall in01 l -> (0 <= qsum l /\ qsum l <= Qnat (List.length l))%Q.
Proof.
  induction 1 as [|v l [Hv0 Hv1] _ [IH0 IH1]].
  - cbn. split; apply Qle_refl.
  - cbn [qsum fold_right List.length]. rewrite Qnat_S.
    fold (qsum l). split; lra.
Qed.

Lemma mean_in01 (l : list Q) :
  Forall in01 l -> in01 (qsum l / Qnat (List.length l)).
Proof.
  intros Hl. destruct (qsum_in01 l Hl) as [H0 H1].
  destruct l as [|v l].
  - cbn. split; discriminate.
  - assert (Hp : (0 < Qnat (List.length (v :: l)))%Q)
      by (apply Qnat_pos; cbn; lia).
    split.
    + apply Qle_shift_div_l; [assumption|]. lra.
    + apply Qle_shift_div_r; [assumption|]. lra.
Qed.

Lemma in01_mult (a b : Q) : in01 a -> in01 b -> in01 (a * b).
Proof.
  intros [Ha0 Ha1] [Hb0 Hb1]. split.
  - apply Qmult_le_0_compat; assumption.
  - setoid_replace 1%Q with (1 * 1)%Q by reflexivity.
    apply Qmult_le_compat_nonneg; split; assumption.
Qed.

Lemma in01_pixel (a : ndarray) (W i j : nat) :
  Forall in01 (data a) -> in01 (pixel a W i j).
Proof.
  intros Ha. unfold pixel.
  destruct (Nat.lt_ge_cases (i * W + j) (List.length (data a))) as [Hlt|Hge].
  - rewrite Forall_forall in Ha. apply Ha, nth_In, Hlt.
  - rewrite nth_overflow by assumption. split; discriminate.
Qed.

Lemma in01_reliable (rel : ndarray) (W : nat) (rel_min : Q) (i j : nat) :
  in01 (reliable rel W rel_min i j).
Proof.
  unfold reliable. destruct (Qle_bool _ _); split; discriminate.
Qed.

Lemma region_mean_in01 (f : nat -> nat -> Q) (x y w h : nat) :
  (forall i j, in01 (f i j)) -> in01 (region_mean f x y w h).
Proof.
  intros Hf. unfold region_mean.
  rewrite <- (length_region_values f x y w h).
  apply mean_in01. unfold region_values.
  apply Forall_flat_map, Forall_forall. intros i _.
  apply Forall_map, Forall_forall. intros j _. apply Hf.
Qed.

(** ** Region scorer: coverage gate (claim C2) *)



(** ** Clamped boxes, crops and the range of the score (claim C9) *)

Lemma tabulate_shape (f : nat -> nat -> Q) (x y w h : nat) :
  List.length (tabulate f x y w h) = h /\
  Forall (fun r => List.length r = w) (tabulate f x y w h).
Proof.
  unfold tabulate. split.
  - now rewrite length_map, length_seq.
  - apply Forall_map, Forall_forall. intros i _.
    now rewrite length_map, length_seq.
Qed.

(** C9.  For every image width and height of at least 1 and every
    integer box, the clamped box lies inside the image with width and
    height at least 1; the crop of an [H] by [W] map at the clamped box
    has exactly [h'] rows of [w'] entries, each of them a pixel of the
    map inside the image, so the means of the scorer are over non-empty
    crops; and when both maps have all their values in [[0, 1]] the
    score of the region lies in [[0, 1]]. *)
Theorem clamp_box_crop_score_in_range
  (loc rel : ndarray) (H W : nat) (roi : Box) (rel_min : Q)
  (x' y' w' h' : Z) :
  (1 <= W)%nat -> (1 <= H)%nat ->
  shape loc = [H; W] -> shape rel = [H; W] ->
  wf_array loc -> wf_array rel ->
  clamp_box (box_x roi) (box_y roi) (box_w roi) (box_h roi)
            (Z.of_nat W) (Z.of_nat H) = (x', y', w', h') ->
  (0 <= x' <= Z.of_nat W - 1 /\ 0 <= y' <= Z.of_nat H - 1 /\
   1 <= w' /\ 1 <= h' /\
   x' + w' <= Z.of_nat W /\ y' + h' <= Z.of_nat H) /\
  (forall a : ndarray, shape a = [H; W] -> wf_array a ->
     crop (rows a) x' y' w' h'
     = tabulate (pixel a W) (Z.to_nat x') (Z.to_nat y') (Z.to_nat w') (Z.to_nat h') /\
     List.length (crop (rows a) x' y' w' h') = Z.to_nat h' /\
     Forall (fun r => List.length r = Z.to_nat w') (crop (rows a) x' y' w' h') /\
     (1 <= List.length (List.concat (crop (rows a) x' y' w' h')))%nat) /\
  exists s : Q,
    roi_anomaly_score loc rel roi rel_min = Ok s /\
    (Forall in01 (data loc) -> Forall in01 (data rel) -> in01 s).
Proof.
  intros HW HH Hsl Hsr Hwl Hwr Hc.
  pose proof (clamp_box_bounds (box_x roi) (box_y roi) (box_w roi) (box_h roi)
                (Z.of_nat W) (Z.of_nat H) ltac:(lia) ltac:(lia)) as Hb.
  rewrite Hc in Hb.
  split; [exact Hb|].
  assert (Ex : x' = Z.of_nat (Z.to_nat x')) by (rewrite Z2Nat.id; lia).
  assert (Ey : y' = Z.of_nat (Z.to_nat y')) by (rewrite Z2Nat.id; lia).
  assert (Ew : w' = Z.of_nat (Z.to_nat w')) by (rewrite Z2Nat.id; lia).
  assert (Eh : h' = Z.of_nat (Z.to_nat h')) by (rewrite Z2Nat.id; lia).
  assert (Hx : (Z.to_nat x' + Z.to_nat w' <= W)%nat) by lia.
  assert (Hy : (Z.to_nat y' + Z.to_nat h' <= H)%nat) by lia.
  split.
  - intros a Hsa Hwa.
    assert (Ecrop : crop (rows a) x' y' w' h'
                    = tabulate (pixel a W) (Z.to_nat x') (Z.to_nat y')
                               (Z.to_nat w') (Z.to_nat h')).
    { rewrite Ex, Ey, Ew, Eh at 1. now apply (crop_pixels a H W). }
    rewrite Ecrop. split; [reflexivity|].
    destruct (tabulate_shape (pixel a W) (Z.to_nat x') (Z.to_nat y')
                (Z.to_nat w') (Z.to_nat h')) as [Hl Hr].
    split; [exact Hl|]. split; [exact Hr|].
    rewrite concat_tabulate, length_region_values. nia.
  - rewrite (roi_anomaly_score_eq loc rel H W roi rel_min
               (Z.to_nat x') (Z.to_nat y') (Z.to_nat w') (Z.to_nat h'));
      try assumption.
    2:{ rewrite Hc. congruence. }
    eexists. split; [reflexivity|]. intros Hl Hr.
    destruct (Qltb _ _).
    + assert (Hm : in01 (region_mean
                           (fun i j => pixel loc W i j * pixel rel W i j)%Q
                           (Z.to_nat x') (Z.to_nat y') (Z.to_nat w') (Z.to_nat h'))).
      { apply region_mean_in01. intros i j.
        apply in01_mult; apply in01_pixel; assumption. }
      destruct Hm as [Hm0 Hm1]. split; lra.
    + unfold spec_masked_mean. apply region_mean_in01. intros i j.
      apply in01_mult; [now apply in01_pixel | apply in01_reliable].
Qed.

(** A 2 by 2 image with maps in the unit interval and a box that leaves
    the image on the right: the clamped box is the single pixel (1, 0). *)
Lemma clamp_box_crop_score_in_range_witness :
  (0 <= 1 <= 2 - 1 /\ 0 <= 0 <= 2 - 1 /\ 1 <= 1 /\ 1 <= 1 /\
   1 + 1 <= 2 /\ 0 + 1 <= 2) /\
  exists s : Q,
    roi_anomaly_score (mkArr [2; 2]%nat [1 # 10; 8 # 10; 3 # 10; 4 # 10])
                      (mkArr [2; 2]%nat [1; 1; 1 # 10; 1])%Q
                      (mkBox 1 0 5 1 "7h" 90) (4 # 10) = Ok s /\
    in01 s.
Proof.
  destruct (clamp_box_crop_score_in_range
              (mkArr [2; 2]%nat [1 # 10; 8 # 10; 3 # 10; 4 # 10])
              (mkArr [2; 2]%nat [1; 1; 1 # 10; 1])%Q
              2 2 (mkBox 1 0 5 1 "7h" 90) (4 # 10) 1 0 1 1
              ltac:(lia) ltac:(lia) eq_refl eq_refl eq_refl eq_refl eq_refl)
    as (Hb & _ & s & Hs & H01).
  split; [exact Hb|]. exists s. split; [exact Hs|].
  apply H01;
    repeat (apply Forall_cons; [split; discriminate|]); apply Forall_nil.
Defined.

(** ** The loop over the regions *)

Section ScoreLoop.

Variables (loc rel : ndarray) (rel_min : Q).

Let sc (roi : Box) : result Q := roi_anomaly_score loc rel roi rel_min.

(** The running maximum after the loop: either no region beat the
    initial value, or the result is the first region that reaches the
    final maximum. *)
Lemma score_rois_spec (rois : list Box) :
  forall (mx0 : Q) (b0 : option Box) (mx : Q) (best : option Box),
    score_rois loc rel rel_min rois mx0 b0 = Ok (mx, best) ->
    (forall roi, In roi rois -> exists s, sc roi = Ok s /\ (s <= mx)%Q) /\
    ((mx = mx0 /\ best = b0) \/
     (exists (i : nat) (b : Box),
         nth_error rois i = Some b /\ best = Some b /\ sc b = Ok mx /\
         (mx0 < mx)%Q /\
         forall (j : nat) (rj : Box),
           (j < i)%nat -> nth_error rois j = Some rj ->
           exists s, sc rj = Ok s /\ (s < mx)%Q)) /\
    (mx0 <= mx)%Q.
Proof.
  induction rois as [|roi rest IH]; intros mx0 b0 mx best Hrun.
  - cbn in Hrun. injection Hrun as <- <-.
    split; [intros ? []|]. split; [now left | apply Qle_refl].
  - cbn [score_rois] in Hrun. fold (sc roi) in Hrun.
    destruct (sc roi) as [s|e] eqn:Es; [|discriminate]. cbn [bind] in Hrun.
    destruct (Qltb mx0 s) eqn:Elt.
    + apply Qltb_lt in Elt.
      destruct (IH _ _ _ _ Hrun) as (Hall & Hcase & Hle).
      split; [|split].
      * intros r [<-|Hin]; [exists s; split; [exact Es | exact Hle] | now apply Hall].
      * right. destruct Hcase as [[-> ->]|(i & b & Hn & Hb & Hsb & Hgt & Hbefore)].
        -- exists 0%nat, roi. repeat split; try assumption; try reflexivity.
           intros j rj Hj. lia.
        -- exists (S i), b. repeat split; try assumption.
           ++ eapply Qlt_trans; eassumption.
           ++ intros [|j] rj Hj Hnj.
              ** cbn in Hnj. injection Hnj as <-. exists s. now split.
              ** apply (Hbefore j rj); [lia | exact Hnj].
      * apply Qlt_le_weak. eapply Qlt_le_trans; eassumption.
    + apply Qltb_ge in Elt.
      destruct (IH _ _ _ _ Hrun) as (Hall & Hcase & Hle).
      split; [|split].
      * intros r [<-|Hin]; [|now apply Hall].
        exists s. split; [exact Es | eapply Qle_trans; eassumption].
      * destruct Hcase as [[-> ->]|(i & b & Hn & Hb & Hsb & Hgt & Hbefore)].
        -- now left.
        -- right. exists (S i), b. repeat split; try assumption.
           intros [|j] rj Hj Hnj.
           ++ cbn in Hnj. injection Hnj as <-. exists s.
              split; [exact Es | eapply Qle_lt_trans; eassumption].
           ++ apply (Hbefore j rj); [lia | exact Hnj].
      * exact Hle.
Qed.

End ScoreLoop.

(** The intermediate values of a completed analysis. *)
Lemma analyze_image_inv (env : Env) (min_conf : Q) (min_size : Z)
  (global_thresh roi_thresh rel_min : Q)
  (status : string) (score mx : Q) (n : nat) (best : option Box) (path : string) :
  analyze_image env min_conf min_size global_thresh roi_thresh rel_min
  = Ok (Analysed status score mx n best path) ->
  exists (H W : nat) (outs : Outputs) (tokens : list Token),
    env_imread env = Some (H, W) /\
    env_trufor env = Ok path /\
    load_trufor_outputs path (env_npz env) H W = Ok outs /\
    env_ocr env = Ok tokens /\
    score = out_score outs /\
    n = List.length (ocr_line_boxes tokens min_conf min_size) /\
    score_rois (out_loc outs) (out_rel outs) rel_min
               (ocr_line_boxes tokens min_conf min_size) 0%Q None = Ok (mx, best) /\
    status = (if flagged score mx global_thresh roi_thresh then "flagged" else "ok").
Proof.
  unfold analyze_image. intros Ha.
  destruct (env_imread env) as [[H W]|]; [|discriminate].
  destruct (env_trufor env) as [p|]; [|discriminate]. cbn [bind] in Ha.
  destruct (load_trufor_outputs p (env_npz env) H W) as [outs|] eqn:El;
    [|discriminate]. cbn [bind] in Ha.
  destruct (env_ocr env) as [tokens|]; [|discriminate]. cbn [bind] in Ha.
  destruct (score_rois _ _ _ _ _ _) as [[mx' best']|] eqn:Es; [|discriminate].
  cbn [bind] in Ha. injection Ha as <- <- <- <- <- <-.
  exists H, W, outs, tokens. repeat split; try reflexivity; assumption.
Qed.

Lemma flagged_iff (score mx global_thresh roi_thresh : Q) :
  flagged score mx global_thresh roi_thresh = true <->
  (global_thresh <= score)%Q \/ (roi_thresh <= mx)%Q.
Proof.
  unfold flagged. rewrite orb_true_iff, !Qle_bool_iff. reflexivity.
Qed.

Lemma row_crop_no_best (env : Env) (min_conf : Q) (min_size : Z)
  (global_thresh roi_thresh rel_min : Q)
  (status : string) (score mx : Q) (n : nat) (path : string) :
  analyze_image env min_conf min_size global_thresh roi_thresh rel_min
  = Ok (Analysed status score mx n None path) ->
  row_crop (process_image env min_conf min_size global_thresh roi_thresh rel_min)
  = None.
Proof.
  intros Ha. unfold process_image. rewrite Ha.
  now destruct (negb (env_exists env)).
Qed.

(** ** The best region and the exported crop (claim C10) *)

(** C10.  In a completed analysis the reported best region is the first
    region, in extraction order, that reaches the maximum score.  Read
    from the regions: a region with a positive score that no region
    beats and that every earlier region stays strictly below is the one
    reported, with its score as the maximum; so of two regions tied at
    the maximum the earlier one is reported.  Read from the result: a
    reported region has these properties.  There is no best region
    exactly when no region scores above 0; when every extracted region
    scores 0 the maximum is 0 and no crop is written, whatever the
    status.  For the best region of a flagged image the export step
    runs, and its patch is the one written when that step succeeds. *)
Theorem best_roi_first_maximum (env : Env) (min_conf : Q) (min_size : Z)
  (global_thresh roi_thresh rel_min : Q)
  (status : string) (score mx : Q) (n : nat) (best : option Box) (path : string) :
  analyze_image env min_conf min_size global_thresh roi_thresh rel_min
  = Ok (Analysed status score mx n best path) ->
  exists (H W : nat) (outs : Outputs) (tokens : list Token),
    env_imread env = Some (H, W) /\
    load_trufor_outputs path (env_npz env) H W = Ok outs /\
    env_ocr env = Ok tokens /\
    let rois := ocr_line_boxes tokens min_conf min_size in
    let sc := fun roi => roi_anomaly_score (out_loc outs) (out_rel outs) roi rel_min in
    let row := process_image env min_conf min_size global_thresh roi_thresh rel_min in
    (forall roi, In roi rois -> exists s, sc roi = Ok s /\ (s <= mx)%Q) /\
    (forall (i : nat) (b : Box) (s : Q),
       nth_error rois i = Some b -> sc b = Ok s -> (0 < s)%Q ->
       (forall roi s', In roi rois -> sc roi = Ok s' -> (s' <= s)%Q) ->
       (forall (j : nat) (rj : Box) (s' : Q),
          (j < i)%nat -> nth_error rois j = Some rj -> sc rj = Ok s' ->
          (s' < s)%Q) ->
       best = Some b /\ mx = s) /\
    (forall b, best = Some b ->
       exists i : nat,
         nth_error rois i = Some b /\ sc b = Ok mx /\ (0 < mx)%Q /\
         forall (j : nat) (rj : Box),
           (j < i)%nat -> nth_error rois j = Some rj ->
           exists s, sc rj = Ok s /\ (s < mx)%Q) /\
    (best = None <->
     forall roi s, In roi rois -> sc roi = Ok s -> (s <= 0)%Q) /\
    ((forall roi s, In roi rois -> sc roi = Ok s -> (s == 0)%Q) ->
     best = None /\ mx = 0%Q /\ row_crop row = None) /\
    (best = None -> row_crop row = None) /\
    (forall b, env_exists env = true -> status = "flagged" -> best = Some b ->
       row_crop row = match export_crop env b with
                      | Ok p => Some p
                      | Raise _ => None
                      end).
Proof.
  intros Ha.
  destruct (analyze_image_inv _ _ _ _ _ _ _ _ _ _ _ _ Ha)
    as (H & W & outs & tokens & Him & Htr & Hl & Ho & Hsc & Hn & Hrun & Hst).
  exists H, W, outs, tokens. split; [exact Him|]. split; [exact Hl|].
  split; [exact Ho|]. cbv zeta.
  destruct (score_rois_spec _ _ _ _ _ _ _ _ Hrun) as (Hall & Hcase & _).
  split; [exact Hall|]. split; [|split; [|split; [|split; [|split]]]].
  - intros i b s Hi Hs Hpos Hmax Hearlier.
    destruct (Hall b (nth_error_In _ _ Hi)) as (s0 & Hs0 & Hle).
    assert (s0 = s) by congruence. subst s0.
    destruct Hcase as [[-> _]|(i' & b' & Hn' & Hb' & Hsb & Hgt & Hbefore)].
    + exfalso. lra.
    + pose proof (Hmax b' mx (nth_error_In _ _ Hn') Hsb) as Hge.
      destruct (Nat.lt_trichotomy i' i) as [Hlt|[Heq|Hlt]].
      * exfalso. pose proof (Hearlier i' b' mx Hlt Hn' Hsb). lra.
      * subst i'. assert (b' = b) by congruence. subst b'.
        split; [exact Hb' | congruence].
      * exfalso. destruct (Hbefore i b Hlt Hi) as (s1 & Hs1 & Hlt1).
        assert (s1 = s) by congruence. subst s1. lra.
  - intros b Hb. destruct Hcase as [[_ Hnone]|(i & b' & Hn' & Hb' & Hsb & Hgt & Hbefore)].
    + congruence.
    + assert (b' = b) by congruence. subst b'.
      exists i. repeat split; assumption.
  - split.
    + intros Hnone roi s Hin Hs.
      destruct Hcase as [[-> _]|(i & b' & _ & Hb' & _)]; [|congruence].
      destruct (Hall roi Hin) as (s0 & Hs0 & Hle).
      assert (s0 = s) by congruence. subst s0. exact Hle.
    + intros Hzero.
      destruct Hcase as [[_ ->]|(i & b' & Hn' & Hb' & Hsb & Hgt & _)];
        [reflexivity|].
      exfalso. pose proof (Hzero b' mx (nth_error_In _ _ Hn') Hsb). lra.
  - intros Hzero.
    destruct Hcase as [[-> ->]|(i & b' & Hn' & Hb' & Hsb & Hgt & _)].
    + split; [reflexivity|]. split; [reflexivity|].
      eapply row_crop_no_best; eassumption.
    + exfalso. apply nth_error_In in Hn'.
      specialize (Hzero b' mx Hn' Hsb). rewrite Hzero in Hgt.
      apply (Qlt_irrefl _ Hgt).
  - intros ->. eapply row_crop_no_best; eassumption.
  - intros b Hex -> ->. unfold process_image. rewrite Ha, Hex.
    cbn [negb String.eqb]. change ("flagged" =? "flagged")%string with true.
    cbv iota. destruct (export_crop env b); reflexivity.
Qed.

(** Three regions, the first two tied at the maximum: the first one is
    reported and exported. *)
Lemma best_roi_first_maximum_witness :
  row_crop (process_image ex_env 40 1 (1 # 2) (22 # 100) (4 # 10))
  = Some (save_crop 2 2 (mkBox 1 0 1 1 "7h" 90) 28).
Proof.
  destruct (best_roi_first_maximum ex_env 40 1 (1 # 2) (22 # 100) (4 # 10)
              "flagged" (5 # 16) (3940000 # 3940000) 3
              (Some (mkBox 1 0 1 1 "7h" 90)) "out/a.png.npz"
              ltac:(vm_compute; reflexivity))
    as (H & W & outs & tokens & Him & _ & _ & _ & _ & _ & _ & _ & _ & Hcrop).
  apply Hcrop; reflexivity.
Defined.

(** ** The decision rule (claim C1) *)

(** C1, as stated, fails: with no region at all and a ROI threshold of
    0, the image is flagged by the comparison [max_roi >= roi_thresh]
    although its global score 0.3 is below the global threshold 0.5. *)
Lemma zero_regions_flagged_on_roi_path :
  analyze_image ex_env_no_text 40 1 (1 # 2) 0 (4 # 10)
  = Ok (Analysed "flagged" (5 # 16) 0 0 None "out/a.png.npz") /\
  ~ (1 # 2 <= 5 # 16)%Q.
Proof.
  split; [vm_compute; reflexivity | apply Qlt_not_le; reflexivity].
Qed.

(** C1 (amended).  In a completed analysis the status is [flagged]
    exactly when [globalScore >= globalThresh] or [maxRegionScore >=
    roiThresh], and [ok] otherwise; with zero regions the maximum region
    score is 0 and there is no best region, so that, when the ROI
    threshold is positive, the status is [flagged] exactly when
    [globalScore >= globalThresh]. *)
Theorem analyze_image_status (env : Env) (min_conf : Q) (min_size : Z)
  (global_thresh roi_thresh rel_min : Q)
  (status : string) (score mx : Q) (n : nat) (best : option Box) (path : string) :
  analyze_image env min_conf min_size global_thresh roi_thresh rel_min
  = Ok (Analysed status score mx n best path) ->
  (status = "flagged" <-> (global_thresh <= score)%Q \/ (roi_thresh <= mx)%Q) /\
  (status = "ok" <-> ~ ((global_thresh <= score)%Q \/ (roi_thresh <= mx)%Q)) /\
  (n = 0%nat ->
   mx = 0%Q /\ best = None /\
   ((0 < roi_thresh)%Q -> (status = "flagged" <-> (global_thresh <= score)%Q))).
Proof.
  intros Ha.
  destruct (analyze_image_inv _ _ _ _ _ _ _ _ _ _ _ _ Ha)
    as (H & W & outs & tokens & _ & _ & _ & _ & _ & Hn & Hrun & Hst).
  pose proof (flagged_iff score mx global_thresh roi_thresh) as Hf.
  assert (Hflag : status = "flagged" <->
                  (global_thresh <= score)%Q \/ (roi_thresh <= mx)%Q).
  { rewrite <- Hf, Hst.
    destruct (flagged score mx global_thresh roi_thresh);
      split; intros; congruence. }
  split; [exact Hflag|]. split.
  - rewrite <- Hf, Hst.
    destruct (flagged score mx global_thresh roi_thresh);
      split; intros; congruence.
  - intros ->. symmetry in Hn. apply length_zero_iff_nil in Hn.
    rewrite Hn in Hrun. cbn in Hrun. injection Hrun as <- <-.
    split; [reflexivity|]. split; [reflexivity|].
    intros Hpos. rewrite Hflag. split; [|now left].
    intros [Hg|Hr]; [exact Hg|].
    exfalso. apply (Qlt_not_le _ _ Hpos Hr).
Qed.

Lemma analyze_image_status_witness :
  ("ok" = "flagged" <-> (1 # 2 <= 5 # 16)%Q \/ (22 # 100 <= 0)%Q) /\
  ("ok" = "ok" <-> ~ ((1 # 2 <= 5 # 16)%Q \/ (22 # 100 <= 0)%Q)) /\
  (0%nat = 0%nat ->
   0%Q = 0%Q /\ @None Box = None /\
   ((0 < 22 # 100)%Q -> ("ok" = "flagged" <-> (1 # 2 <= 5 # 16)%Q))).
Proof.
  apply (analyze_image_status ex_env_no_text 40 1 (1 # 2) (22 # 100) (4 # 10)
           "ok" (5 # 16) 0 0 None "out/a.png.npz").
  vm_compute. reflexivity.
Defined.

(** ** Failure of the OCR engine (claim C5) *)

(** C5, as stated, fails: the image is read, its bundle resolves, the
    OCR engine raises, and the row of the image has status [error]
    carrying the engine's exception, not a verdict from the global
    score. *)
Lemma ocr_failure_is_not_zero_regions :
  env_imread ex_env_ocr_fails = Some (2, 2)%nat /\
  (exists outs, load_trufor_outputs "out/a.png.npz" (env_npz ex_env_ocr_fails) 2 2
                = Ok outs) /\
  env_ocr ex_env_ocr_fails = Raise (External "tesseract failed") /\
  analyze_image ex_env_ocr_fails 40 1 (1 # 2) (22 # 100) (4 # 10)
  = Raise (External "tesseract failed") /\
  row_status (process_image ex_env_ocr_fails 40 1 (1 # 2) (22 # 100) (4 # 10))
  = "error" /\
  row_status (process_image ex_env_no_text 40 1 (1 # 2) (22 # 100) (4 # 10))
  = "ok".
Proof.
  split; [reflexivity|]. split.
  - eexists. vm_compute. reflexivity.
  - repeat split; vm_compute; reflexivity.
Qed.

(** C5 (amended).  For every image that was read and whose bundle
    resolved, an exception of the OCR engine leaves [analyze_image]
    unchanged and the batch loop turns it into a row of status [error]
    that carries the exception, with no scores, no region count and no
    crop. *)
Theorem ocr_failure_gives_error_row (env : Env) (min_conf : Q) (min_size : Z)
  (global_thresh roi_thresh rel_min : Q)
  (H W : nat) (path : string) (outs : Outputs) (e : exn) :
  env_exists env = true ->
  env_imread env = Some (H, W) ->
  env_trufor env = Ok path ->
  load_trufor_outputs path (env_npz env) H W = Ok outs ->
  env_ocr env = Raise e ->
  analyze_image env min_conf min_size global_thresh roi_thresh rel_min = Raise e /\
  process_image env min_conf min_size global_thresh roi_thresh rel_min
  = error_row (Exception e) /\
  row_status (process_image env min_conf min_size global_thresh roi_thresh rel_min)
  = "error".
Proof.
  intros Hex Him Htr Hl Ho.
  assert (Ha : analyze_image env min_conf min_size global_thresh roi_thresh rel_min
               = Raise e).
  { unfold analyze_image. rewrite Him, Htr. cbn [bind]. rewrite Hl. cbn [bind].
    rewrite Ho. reflexivity. }
  split; [exact Ha|].
  unfold process_image. rewrite Hex, Ha. cbn. split; reflexivity.
Qed.

Lemma ocr_failure_gives_error_row_witness :
  analyze_image ex_env_ocr_fails 40 1 (1 # 2) (22 # 100) (4 # 10)
  = Raise (External "tesseract failed") /\
  process_image ex_env_ocr_fails 40 1 (1 # 2) (22 # 100) (4 # 10)
  = error_row (Exception (External "tesseract failed")) /\
  row_status (process_image ex_env_ocr_fails 40 1 (1 # 2) (22 # 100) (4 # 10))
  = "error".
Proof.
  apply (ocr_failure_gives_error_row ex_env_ocr_fails 40 1 (1 # 2) (22 # 100)
           (4 # 10) 2 2 "out/a.png.npz"
           (mkOutputs (5 # 16)
              (mkArr [2; 2]%nat
                 [0; 3940000 # 3940000; 3880000 # 7880000; 3940000 # 3940000]%Q)
              (mkArr [2; 2]%nat
                 [970000 # 970000; 970000 # 970000; 0; 970000 # 970000]%Q)));
    vm_compute; reflexivity.
Defined.

(** ** The resolver *)

Lemma insert_cand_in (c d : candidate) (l : list candidate) :
  In c (insert_cand d l) <-> d = c \/ In c l.
Proof.
  induction l as [|e l IH]; cbn; [tauto|].
  destruct (cand_rank d <=? cand_rank e)%Z; cbn; [tauto|].
  rewrite IH. tauto.
Qed.

Lemma sort_cand_in (c : candidate) (l : list candidate) :
  In c (sort_cand l) <-> In c l.
Proof.
  induction l as [|d l IH]; cbn; [tauto|].
  fold (sort_cand l). rewrite insert_cand_in, IH. tauto.
Qed.

(** What [_pick_array] returns, from the candidates it collected. *)
Lemma pick_of_collect (npz : bundle) (w : want) (H W : nat) (cs : list candidate) :
  collect w H W npz = Ok cs ->
  (cs = [] /\ _pick_array npz w H W = Ok None) \/
  (exists c, In c cs /\ _pick_array npz w H W = Ok (Some (cand_arr c))).
Proof.
  intros Hc. unfold _pick_array. rewrite Hc. cbn [bind].
  destruct (sort_cand cs) as [|c rest] eqn:Es.
  - left. split; [|reflexivity].
    destruct cs as [|d cs']; [reflexivity|].
    assert (Hin : In d (sort_cand (d :: cs'))) by (apply sort_cand_in; now left).
    rewrite Es in Hin. destruct Hin.
  - right. exists c. split; [|reflexivity].
    apply sort_cand_in. rewrite Es. now left.
Qed.

Lemma collect_spec (w : want) (H W : nat) (npz : bundle) :
  forall cs, collect w H W npz = Ok cs ->
  (forall c, In c cs ->
     exists k arr, In (k, arr) npz /\
                   entry_candidate w H W arr = Ok (Some (cand_arr c))) /\
  (cs = [] <->
   forall k arr, In (k, arr) npz -> entry_candidate w H W arr = Ok None).
Proof.
  induction npz as [|[k arr] rest IH]; intros cs Hc.
  - cbn in Hc. injection Hc as <-. split; [intros ? []|].
    split; [intros _ ? ? []|reflexivity].
  - cbn [collect] in Hc.
    destruct (entry_candidate w H W arr) as [o|] eqn:Ee; [|discriminate].
    cbn [bind] in Hc.
    destruct (collect w H W rest) as [cs'|]; [|discriminate].
    cbn [bind] in Hc. injection Hc as <-.
    destruct (IH cs' eq_refl) as [IHin IHnil].
    destruct o as [a|].
    + split.
      * intros c [<-|Hin].
        -- exists k, arr. split; [now left | exact Ee].
        -- destruct (IHin c Hin) as (k' & arr' & Hin' & He').
           exists k', arr'. split; [now right | exact He'].
      * split; [discriminate|].
        intros Hall. specialize (Hall k arr (or_introl eq_refl)). congruence.
    + split.
      * intros c Hin. destruct (IHin c Hin) as (k' & arr' & Hin' & He').
        exists k', arr'. split; [now right | exact He'].
      * rewrite IHnil. split.
        -- intros Hall k' arr' [Heq|Hin]; [congruence | exact (Hall k' arr' Hin)].
        -- intros Hall k' arr' Hin. apply (Hall k' arr'). now right.
Qed.

Lemma collect_ok (w : want) (H W : nat) (npz : bundle) :
  (forall k arr, In (k, arr) npz -> exists o, entry_candidate w H W arr = Ok o) ->
  exists cs, collect w H W npz = Ok cs.
Proof.
  induction npz as [|[k arr] rest IH]; intros Hall; [now exists []|].
  cbn [collect].
  destruct (Hall k arr (or_introl eq_refl)) as [o ->]. cbn [bind].
  destruct IH as [cs ->]; [intros k' arr' Hin; apply (Hall k' arr'); now right|].
  cbn [bind]. eexists. reflexivity.
Qed.

Lemma map_candidate_total (H W : nat) (arr : ndarray) :
  (ndim arr = 3%nat -> size arr <> 0%nat) ->
  exists o, map_candidate H W arr = Ok o.
Proof.
  destruct arr as [sh dt]. unfold map_candidate, ndim, size, index_first,
    index_last, channel0. cbn [shape data].
  intros Hne.
  destruct sh as [|d0 [|d1 [|d2 [|d3 sh]]]]; try (eexists; reflexivity).
  - destruct (_ && _); eexists; reflexivity.
  - specialize (Hne eq_refl). cbn in Hne.
    assert (d0 <> 0 /\ d2 <> 0)%nat as [H0 H2] by nia.
    apply Nat.eqb_neq in H0, H2. rewrite H0, H2.
    destruct (_ && _); [destruct (d0 =? 1)%nat; eexists; reflexivity|].
    destruct (_ && _); eexists; reflexivity.
Qed.

Lemma map_candidate_shape (H W : nat) (arr a : ndarray) :
  map_candidate H W arr = Ok (Some a) -> shape a = [H; W].
Proof.
  destruct arr as [sh dt]. unfold map_candidate, index_first, index_last,
    channel0. cbn [shape data].
  destruct sh as [|d0 [|d1 [|d2 [|d3 sh]]]]; try discriminate.
  - destruct ((d0 =? H)%nat && (d1 =? W)%nat) eqn:E; [|discriminate].
    apply andb_true_iff in E as [E0 E1]. apply Nat.eqb_eq in E0, E1.
    intros [= <-]. cbn. congruence.
  - destruct ((d1 =? H)%nat && (d2 =? W)%nat) eqn:E.
    + apply andb_true_iff in E as [E1 E2]. apply Nat.eqb_eq in E1, E2.
      destruct (d0 =? 0)%nat; [destruct (d0 =? 1)%nat; discriminate|].
      destruct (d0 =? 1)%nat; cbn [bind]; intros [= <-]; cbn; congruence.
    + destruct ((d0 =? H)%nat && (d1 =? W)%nat) eqn:E'; [|discriminate].
      apply andb_true_iff in E' as [E0 E1]. apply Nat.eqb_eq in E0, E1.
      destruct (d2 =? 0)%nat; [discriminate|].
      cbn [bind]. intros [= <-]. cbn. congruence.
Qed.

Lemma length_stride (n c : nat) (l : list Q) :
  (1 <= c)%nat -> List.length l = (n * c)%nat -> List.length (stride n c l) = n.
Proof.
  intros Hc. revert l. induction n as [|n IH]; intros l Hl; [reflexivity|].
  cbn [stride]. destruct l as [|v l']; [cbn in Hl; nia|].
  cbn [List.length]. f_equal. apply IH.
  rewrite length_skipn, Hl. nia.
Qed.

Lemma map_candidate_wf (H W : nat) (arr a : ndarray) :
  wf_array arr -> map_candidate H W arr = Ok (Some a) -> wf_array a.
Proof.
  destruct arr as [sh dt]. unfold wf_array, size, map_candidate, index_first,
    index_last, channel0. cbn [shape data].
  intros Hwf.
  destruct sh as [|d0 [|d1 [|d2 [|d3 sh]]]]; try discriminate.
  - destruct (_ && _); [|discriminate]. intros [= <-]. exact Hwf.
  - cbn in Hwf.
    destruct (_ && _).
    + destruct (Nat.eqb_spec d0 0); [destruct (d0 =? 1)%nat; discriminate|].
      destruct (d0 =? 1)%nat; cbn [bind]; intros [= <-]; cbn;
        rewrite ?length_firstn, ?length_skipn; nia.
    + destruct (_ && _); [|discriminate].
      destruct (Nat.eqb_spec d2 0); [discriminate|].
      cbn [bind]. intros [= <-]. cbn.
      rewrite length_stride; nia.
Qed.

Lemma shape_norm01 (m : ndarray) : shape (norm01 m) = shape m.
Proof. unfold norm01. now destruct (Qltb _ _). Qed.

Lemma wf_norm01 (m : ndarray) : wf_array m -> wf_array (norm01 m).
Proof.
  unfold wf_array, size. rewrite shape_norm01. unfold norm01.
  destruct (Qltb _ _); cbn [data]; now rewrite length_map.
Qed.

Lemma has_score_false (npz : bundle) :
  has_score npz = false <->
  forall k arr, In (k, arr) npz -> entry_candidate WantScore 0 0 arr = Ok None.
Proof.
  unfold has_score. split.
  - intros Hf k arr Hin. cbn.
    destruct (is_size1 arr) eqn:E; [|reflexivity].
    assert (existsb (fun kv => is_size1 (snd kv)) npz = true)
      by (apply existsb_exists; exists (k, arr); now split).
    congruence.
  - intros Hall. destruct (existsb _ npz) eqn:E; [|reflexivity].
    apply existsb_exists in E as [[k arr] [Hin Hs]].
    specialize (Hall k arr Hin). cbn in Hall, Hs. rewrite Hs in Hall. discriminate.
Qed.

Lemma has_map_false (H W : nat) (npz : bundle) :
  no_empty_3d npz ->
  (has_map H W npz = false <->
   forall k arr, In (k, arr) npz -> map_candidate H W arr = Ok None).
Proof.
  intros Hne. unfold has_map, is_map. split.
  - intros Hf k arr Hin.
    unfold no_empty_3d in Hne. rewrite Forall_forall in Hne.
    destruct (map_candidate_total H W arr (Hne (k, arr) Hin)) as [[a|] Ho];
      [|exact Ho].
    assert (existsb (fun kv => match map_candidate H W (snd kv) with
                               | Ok (Some _) => true
                               | _ => false
                               end) npz = true).
    { apply existsb_exists. exists (k, arr). split; [exact Hin|].
      cbn. now rewrite Ho. }
    congruence.
  - intros Hall. destruct (existsb _ npz) eqn:E; [|reflexivity].
    apply existsb_exists in E as [[k arr] [Hin Hs]].
    cbn in Hs. rewrite (Hall k arr Hin) in Hs. discriminate.
Qed.

Lemma pick_score_spec (npz : bundle) (H W : nat) :
  (has_score npz = false /\ _pick_array npz WantScore H W = Ok None /\
   any_size1 npz = None) \/
  (has_score npz = true /\
   exists k sa, In (k, sa) npz /\ is_size1 sa = true /\
                _pick_array npz WantScore H W = Ok (Some sa)).
Proof.
  destruct (collect_ok WantScore H W npz) as [cs Hc];
    [intros; eexists; reflexivity|].
  destruct (collect_spec _ _ _ _ _ Hc) as [Hin Hnil].
  destruct (pick_of_collect _ _ _ _ _ Hc) as [[-> Hp]|(c & Hc' & Hp)].
  - left. assert (Hs : has_score npz = false).
    { apply has_score_false. intros k arr Hi.
      apply (proj1 Hnil eq_refl k arr Hi). }
    repeat split; [exact Hs | exact Hp |].
    unfold any_size1. destruct (find _ npz) as [kv|] eqn:Ef; [|reflexivity].
    apply find_some in Ef as [Hi Hsz]. unfold has_score in Hs.
    assert (existsb (fun kv => is_size1 (snd kv)) npz = true)
      by (apply existsb_exists; exists kv; now split).
    congruence.
  - right. destruct (Hin c Hc') as (k & arr & Hi & He). cbn in He.
    destruct (is_size1 arr) eqn:Es; [|discriminate].
    injection He as He. split.
    + unfold has_score. apply existsb_exists. exists (k, arr). now split.
    + exists k, arr. rewrite <- He in Hp. repeat split; assumption.
Qed.

Lemma pick_map_spec (npz : bundle) (w : want) (H W : nat) :
  w <> WantScore -> no_empty_3d npz ->
  (has_map H W npz = false /\ _pick_array npz w H W = Ok None) \/
  (has_map H W npz = true /\
   exists k arr a, In (k, arr) npz /\ map_candidate H W arr = Ok (Some a) /\
                   _pick_array npz w H W = Ok (Some a)).
Proof.
  intros Hw Hne.
  assert (Hentry : forall arr, entry_candidate w H W arr = map_candidate H W arr)
    by (intros; destruct w; [congruence | reflexivity | reflexivity]).
  destruct (collect_ok w H W npz) as [cs Hc].
  { intros k arr Hi. rewrite Hentry. apply map_candidate_total.
    unfold no_empty_3d in Hne. rewrite Forall_forall in Hne.
    apply (Hne (k, arr) Hi). }
  destruct (collect_spec _ _ _ _ _ Hc) as [Hin Hnil].
  destruct (pick_of_collect _ _ _ _ _ Hc) as [[-> Hp]|(c & Hc' & Hp)].
  - left. split; [|exact Hp]. apply has_map_false; [exact Hne|].
    intros k arr Hi. rewrite <- Hentry. apply (proj1 Hnil eq_refl k arr Hi).
  - right. destruct (Hin c Hc') as (k & arr & Hi & He). rewrite Hentry in He.
    split.
    + unfold has_map, is_map. apply existsb_exists. exists (k, arr).
      split; [exact Hi|]. cbn. now rewrite He.
    + exists k, arr, (cand_arr c). repeat split; assumption.
Qed.

(** The outcome of [load_trufor_outputs] on a bundle without empty
    three-dimensional entries. *)
Lemma load_trufor_outputs_spec (npz_path : string) (npz : bundle) (H W : nat) :
  no_empty_3d npz ->
  (has_score npz = true -> has_map H W npz = true ->
   exists ks sa kl al l kr ar r,
     In (ks, sa) npz /\ is_size1 sa = true /\
     In (kl, al) npz /\ map_candidate H W al = Ok (Some l) /\
     In (kr, ar) npz /\ map_candidate H W ar = Ok (Some r) /\
     load_trufor_outputs npz_path npz H W
     = Ok (mkOutputs (float32 (nth 0 (data sa) 0%Q)) (norm01 l) (norm01 r))) /\
  (has_score npz = false \/ has_map H W npz = false ->
   load_trufor_outputs npz_path npz H W = Raise (KeyError npz_path (keys npz))).
Proof.
  intros Hne. unfold load_trufor_outputs.
  destruct (pick_score_spec npz H W)
    as [(Hs & Hps & Hany)|(Hs & ks & sa & His & Hsz & Hps)];
  destruct (pick_map_spec npz WantLoc H W ltac:(discriminate) Hne)
    as [(Hm & Hpl)|(Hm & kl & al & l & Hil & Hml & Hpl)];
  destruct (pick_map_spec npz WantRel H W ltac:(discriminate) Hne)
    as [(Hm' & Hpr)|(Hm' & kr & ar & r & Hir & Hmr & Hpr)];
  try congruence;
  rewrite Hps, Hpl, Hpr; cbn [bind]; unfold resolve_picked; rewrite ?Hany;
  (split; [intros; try congruence | intros [|]; try congruence; reflexivity]).
  exists ks, sa, kl, al, l, kr, ar, r. repeat split; assumption.
Qed.

(** ** Failure of the resolver (claim C3) *)

(** C3, as stated, fails: on a 2 by 2 image a bundle holding only a
    size-1 entry resolves the score role and still fails, and the error
    it raises is the very same as for a bundle with the same key where
    both roles are missing: it names no role. *)
Lemma load_fails_with_score_resolved :
  _pick_array [("score", mkArr [] [3 # 10])] WantScore 2 2
  = Ok (Some (mkArr [] [3 # 10])) /\
  load_trufor_outputs "a.npz" [("score", mkArr [] [3 # 10])] 2 2
  = Raise (KeyError "a.npz" ["score"]) /\
  _pick_array [("score", mkArr [2]%nat [3 # 10; 1]%Q)] WantScore 2 2 = Ok None /\
  load_trufor_outputs "a.npz" [("score", mkArr [2]%nat [3 # 10; 1]%Q)] 2 2
  = Raise (KeyError "a.npz" ["score"]).
Proof. repeat split; vm_compute; reflexivity. Qed.

(** C3 (amended).  On a bundle without empty three-dimensional entries,
    resolution fails exactly when the score role or the localizationMap
    role cannot be resolved (one of them is enough); the error is then
    the [KeyError] built from the bundle path and the list of all keys
    of the bundle; and a bundle with a size-1 entry and a map entry
    resolves, whatever its keys say about reliability. *)
Theorem load_fails_iff_role_missing (npz_path : string) (npz : bundle) (H W : nat) :
  no_empty_3d npz ->
  ((exists e, load_trufor_outputs npz_path npz H W = Raise e) <->
   has_score npz = false \/ has_map H W npz = false) /\
  (forall e, load_trufor_outputs npz_path npz H W = Raise e ->
             e = KeyError npz_path (keys npz)) /\
  (has_score npz = true -> has_map H W npz = true ->
   exists outs, load_trufor_outputs npz_path npz H W = Ok outs).
Proof.
  intros Hne.
  destruct (load_trufor_outputs_spec npz_path npz H W Hne) as [Hok Hfail].
  assert (Hcases : (has_score npz = true /\ has_map H W npz = true) \/
                   (has_score npz = false \/ has_map H W npz = false)).
  { destruct (has_score npz), (has_map H W npz); tauto. }
  split; [|split].
  - split.
    + intros [e He]. destruct Hcases as [[Hs Hm]|Hmiss]; [|exact Hmiss].
      destruct (Hok Hs Hm) as (? & ? & ? & ? & ? & ? & ? & ? & Hload).
      decompose [and] Hload. congruence.
    + intros Hmiss. eexists. apply (Hfail Hmiss).
  - intros e He. destruct Hcases as [[Hs Hm]|Hmiss].
    + destruct (Hok Hs Hm) as (? & ? & ? & ? & ? & ? & ? & ? & Hload).
      decompose [and] Hload. congruence.
    + rewrite (Hfail Hmiss) in He. congruence.
  - intros Hs Hm.
    destruct (Hok Hs Hm) as (? & ? & ? & ? & ? & ? & ? & ? & Hload).
    decompose [and] Hload. eexists. eassumption.
Qed.

Lemma load_fails_iff_role_missing_witness :
  ((exists e, load_trufor_outputs "a.npz" ex_npz 2 2 = Raise e) <->
   has_score ex_npz = false \/ has_map 2 2 ex_npz = false) /\
  (forall e, load_trufor_outputs "a.npz" ex_npz 2 2 = Raise e ->
             e = KeyError "a.npz" (keys ex_npz)) /\
  (has_score ex_npz = true -> has_map 2 2 ex_npz = true ->
   exists outs, load_trufor_outputs "a.npz" ex_npz 2 2 = Ok outs).
Proof.
  apply (load_fails_iff_role_missing "a.npz" ex_npz 2 2).
  repeat constructor; cbn; discriminate.
Defined.

(** ** Success of the resolver and the shape of its maps (claim C4) *)

(** C4 does not hold of the code.  A bundle with a size-1 entry and a
    2 by 2 map that also holds an empty 0 by 2 by 2 entry does not
    resolve: indexing the empty entry raises.  And the code departs from
    its own comment ("if reliability map missing, set to 1s"): on a
    bundle whose keys carry no reliability token the reliability map is
    not the all-ones map; every map candidate is a reliability candidate
    too, so the localization entry itself comes back as reliability
    map, here with a first pixel of 0. *)
Lemma load_needs_no_empty_entry_and_never_defaults :
  (has_score [("score", mkArr [] [3 # 10]);
              ("map", mkArr [2; 2]%nat [0; 1; 1 # 2; 1]%Q);
              ("aux", mkArr [0; 2; 2]%nat [])] = true /\
   has_map 2 2 [("score", mkArr [] [3 # 10]);
                ("map", mkArr [2; 2]%nat [0; 1; 1 # 2; 1]%Q);
                ("aux", mkArr [0; 2; 2]%nat [])] = true /\
   load_trufor_outputs "a.npz"
     [("score", mkArr [] [3 # 10]);
      ("map", mkArr [2; 2]%nat [0; 1; 1 # 2; 1]%Q);
      ("aux", mkArr [0; 2; 2]%nat [])] 2 2 = Raise IndexError) /\
  (forallb (fun k => negb (names_reliability k)) ["score"; "map"] = true /\
   exists outs,
     load_trufor_outputs "a.npz"
       [("score", mkArr [] [3 # 10]);
        ("map", mkArr [2; 2]%nat [0; 1; 1 # 2; 1]%Q)] 2 2 = Ok outs /\
     out_rel outs = out_loc outs /\
     nth 0 (data (out_rel outs)) 1%Q = 0%Q /\
     nth 0 (data (ones 2 2)) 0%Q = 1%Q).
Proof.
  split.
  - repeat split; vm_compute; reflexivity.
  - split; [vm_compute; reflexivity|].
    eexists. split; [vm_compute; reflexivity|].
    repeat split; vm_compute; reflexivity.
Qed.

(** C4, what the code does.  For every image size and every bundle
    without empty three-dimensional entries that holds a size-1 entry
    and an entry passing the shape test for (H, W), resolution succeeds
    and both returned maps have shape exactly (H, W) (with H * W entries
    when the entries of the bundle are well formed).  The branch that
    sets the reliability map to all ones is never taken on such a
    bundle: the returned reliability map is the normalization of an
    entry of the bundle that passes the shape test, as the localization
    map is.  This is where the code departs from the default its
    comment announces. *)
Theorem load_succeeds_with_maps_of_image_shape
  (npz_path : string) (npz : bundle) (H W : nat) :
  no_empty_3d npz ->
  has_score npz = true ->
  has_map H W npz = true ->
  exists outs,
    load_trufor_outputs npz_path npz H W = Ok outs /\
    shape (out_loc outs) = [H; W] /\
    shape (out_rel outs) = [H; W] /\
    (Forall (fun kv => wf_array (snd kv)) npz ->
     wf_array (out_loc outs) /\ wf_array (out_rel outs)) /\
    (exists k arr a, In (k, arr) npz /\ map_candidate H W arr = Ok (Some a) /\
                     out_loc outs = norm01 a) /\
    (exists k arr a, In (k, arr) npz /\ map_candidate H W arr = Ok (Some a) /\
                     out_rel outs = norm01 a).
Proof.
  intros Hne Hs Hm.
  destruct (load_trufor_outputs_spec npz_path npz H W Hne) as [Hok _].
  destruct (Hok Hs Hm)
    as (ks & sa & kl & al & l & kr & ar & r & His & Hsz & Hil & Hml & Hir & Hmr & Hload).
  eexists. split; [exact Hload|]. cbn [out_loc out_rel].
  rewrite !shape_norm01.
  split; [now apply (map_candidate_shape H W al)|].
  split; [now apply (map_candidate_shape H W ar)|].
  split; [|split].
  - intros Hwf. rewrite Forall_forall in Hwf. split; apply wf_norm01.
    + apply (map_candidate_wf H W al); [apply (Hwf (kl, al) Hil) | exact Hml].
    + apply (map_candidate_wf H W ar); [apply (Hwf (kr, ar) Hir) | exact Hmr].
  - exists kl, al, l. repeat split; assumption.
  - exists kr, ar, r. repeat split; assumption.
Qed.

Lemma load_succeeds_with_maps_of_image_shape_witness :
  exists outs,
    load_trufor_outputs "a.npz" ex_npz 2 2 = Ok outs /\
    shape (out_loc outs) = [2; 2]%nat /\
    shape (out_rel outs) = [2; 2]%nat.
Proof.
  destruct (load_succeeds_with_maps_of_image_shape "a.npz" ex_npz 2 2)
    as (outs & Hl & Hsl & Hsr & _).
  - repeat constructor; cbn; discriminate.
  - reflexivity.
  - reflexivity.
  - exists outs. repeat split; assumption.
Defined.

(** ** The resolved score (claim C6) *)

Lemma round_half_even_bounds (x : Q) (N : Z) :
  (0 <= x)%Q -> (x <= inject_Z N)%Q ->
  0 <= round_half_even x <= N.
Proof.
  intros H0 HN. unfold round_half_even.
  pose proof (Qfloor_le x) as Hf. pose proof (Qlt_floor x) as Hc.
  set (f := Qfloor x) in *.
  assert (Hf0 : 0 <= f).
  { assert (Hlt : (inject_Z 0 < inject_Z (f + 1))%Q)
      by (eapply Qle_lt_trans; [exact H0 | exact Hc]).
    rewrite <- Zlt_Qlt in Hlt. lia. }
  assert (HfN : f <= N).
  { rewrite Zle_Qle. eapply Qle_trans; eassumption. }
  destruct (Qcompare_spec (x - inject_Z f) (1 # 2)) as [He|Hl|Hg].
  - assert (Hlt : (inject_Z f < inject_Z N)%Q) by lra.
    rewrite <- Zlt_Qlt in Hlt. destruct (Z.even f); lia.
  - lia.
  - assert (Hlt : (inject_Z f < inject_Z N)%Q) by lra.
    rewrite <- Zlt_Qlt in Hlt. lia.
Qed.

Lemma ilog2_le_0 (q : Q) : (0 < q)%Q -> (q <= 1)%Q -> ilog2 q <= 0.
Proof.
  destruct q as [n d]. unfold Qlt, Qle, ilog2. cbn [Qnum Qden].
  intros Hpos Hle.
  assert (Hn : Z.log2 (Z.abs n) <= Z.log2 (Z.pos d)).
  { apply Z.log2_le_mono. lia. }
  destruct (if (0 <=? _)%Z then _ else _); lia.
Qed.

(** Rounding to [float32] keeps a value of the unit interval inside it:
    0 and 1 are [float32] numbers and rounding is monotone. *)
Lemma float32_in01 (q : Q) : in01 q -> in01 (float32 q).
Proof.
  intros [H0 H1]. unfold float32.
  destruct (Qeq_bool q 0) eqn:E0; [split; discriminate|].
  assert (Hpos : (0 < q)%Q).
  { apply Qeq_bool_neq in E0. lra. }
  pose proof (ilog2_le_0 q Hpos H1) as He.
  set (e := Z.max (ilog2 q) (-126)).
  assert (He' : e <= 0) by (unfold e; lia).
  destruct (Z.leb_spec e 23) as [_|Hgt]; [|lia].
  set (P := 2 ^ (23 - e)).
  assert (HP : 0 < P) by (apply Z.pow_pos_nonneg; lia).
  assert (HPq : (0 < inject_Z P)%Q) by (rewrite Zlt_Qlt in HP; exact HP).
  destruct (round_half_even_bounds (q * inject_Z P) P) as [Hr0 HrP].
  - apply Qmult_le_0_compat; [exact H0 | apply Qlt_le_weak; exact HPq].
  - rewrite <- (Qmult_1_l (inject_Z P)) at 2.
    apply Qmult_le_compat_r; [exact H1 | apply Qlt_le_weak; exact HPq].
  - set (r := round_half_even (q * inject_Z P)) in *.
    rewrite Zle_Qle in Hr0, HrP. change (inject_Z 0) with 0%Q in Hr0.
    unfold in01. rewrite Qred_correct.
    split.
    + apply Qle_shift_div_l; [exact HPq|]. lra.
    + apply Qle_shift_div_r; [exact HPq|]. lra.
Qed.

(** C6, as stated, fails: the score of the bundle is rounded to
    [float32] and nothing else; 3.5 stays 3.5. *)
Lemma resolved_score_outside_unit_interval :
  exists outs,
    load_trufor_outputs "a.npz"
      [("score", mkArr [] [7 # 2]);
       ("map", mkArr [2; 2]%nat [0; 1; 1 # 2; 1]%Q)] 2 2 = Ok outs /\
    out_score outs = 7 # 2 /\
    ~ in01 (out_score outs).
Proof.
  eexists. split; [vm_compute; reflexivity|]. split; [reflexivity|].
  cbn. intros [_ Hle]. revert Hle. apply Qlt_not_le. reflexivity.
Qed.

(** C6 (amended).  For every successfully resolved bundle, the resolved
    global score is the first value of the size-1 entry the picker
    returns for the score role, rounded to [float32] and neither clipped
    nor checked; it lies in [[0, 1]] whenever the size-1 entries of the
    bundle do. *)
Theorem resolved_score_is_bundle_entry
  (npz_path : string) (npz : bundle) (H W : nat) (outs : Outputs) :
  load_trufor_outputs npz_path npz H W = Ok outs ->
  (exists k sa, In (k, sa) npz /\ is_size1 sa = true /\
                _pick_array npz WantScore H W = Ok (Some sa) /\
                out_score outs = float32 (nth 0 (data sa) 0%Q)) /\
  ((forall k sa, In (k, sa) npz -> is_size1 sa = true ->
                 in01 (nth 0 (data sa) 0%Q)) ->
   in01 (out_score outs)).
Proof.
  intros Hload.
  assert (Hex : exists k sa, In (k, sa) npz /\ is_size1 sa = true /\
                             _pick_array npz WantScore H W = Ok (Some sa) /\
                             out_score outs = float32 (nth 0 (data sa) 0%Q)).
  { unfold load_trufor_outputs in Hload.
    destruct (pick_score_spec npz H W)
      as [(_ & Hps & Hany)|(_ & ks & sa & His & Hsz & Hps)];
      rewrite Hps in Hload; cbn [bind] in Hload;
      destruct (_pick_array npz WantLoc H W) as [[l|]|]; try discriminate;
      cbn [bind] in Hload;
      destruct (_pick_array npz WantRel H W) as [[r|]|]; try discriminate;
      cbn [bind] in Hload; unfold resolve_picked in Hload;
      rewrite ?Hany in Hload; try discriminate;
      injection Hload as <-; exists ks, sa; repeat split; assumption. }
  split; [exact Hex|].
  intros Hall. destruct Hex as (k & sa & Hin & Hsz & _ & ->).
  apply float32_in01. now apply (Hall k sa).
Qed.

(** A bundle with score 0.7: the resolved score is the [float32] next to
    it, 11744051 / 2^24. *)
Lemma resolved_score_is_bundle_entry_witness :
  (exists k sa,
      In (k, sa) [("score", mkArr [] [7 # 10]);
                  ("map", mkArr [2; 2]%nat [0; 1; 1 # 2; 1]%Q)] /\
      is_size1 sa = true /\
      _pick_array [("score", mkArr [] [7 # 10]);
                   ("map", mkArr [2; 2]%nat [0; 1; 1 # 2; 1]%Q)] WantScore 2 2
      = Ok (Some sa) /\
      11744051 # 16777216 = float32 (nth 0 (data sa) 0%Q)) /\
  ((forall k sa,
       In (k, sa) [("score", mkArr [] [7 # 10]);
                   ("map", mkArr [2; 2]%nat [0; 1; 1 # 2; 1]%Q)] ->
       is_size1 sa = true -> in01 (nth 0 (data sa) 0%Q)) ->
   in01 (11744051 # 16777216)).
Proof.
  apply (resolved_score_is_bundle_entry "a.npz"
           [("score", mkArr [] [7 # 10]);
            ("map", mkArr [2; 2]%nat [0; 1; 1 # 2; 1]%Q)] 2 2
           (mkOutputs (11744051 # 16777216)
              (mkArr [2; 2]%nat
                 [0; 3940000 # 3940000; 3880000 # 7880000; 3940000 # 3940000]%Q)
              (mkArr [2; 2]%nat
                 [0; 3940000 # 3940000; 3880000 # 7880000; 3940000 # 3940000]%Q))).
  vm_compute. reflexivity.
Defined.

(** ** Stripping and joining *)

Lemma lstrip_starts (s : string) :
  match lstrip s with
  | EmptyString => True
  | String c _ => is_space c = false
  end.
Proof.
  induction s as [|c s IH]; cbn; [exact I|].
  destruct (is_space c) eqn:E; [exact IH | exact E].
Qed.

Lemma rstrip_idem (s : string) : rstrip (rstrip s) = rstrip s.
Proof.
  induction s as [|c s IH]; [reflexivity|]. cbn [rstrip].
  destruct (rstrip s) as [|c' r] eqn:E.
  - destruct (is_space c) eqn:Ec; [reflexivity|]. cbn. now rewrite Ec.
  - cbn [rstrip]. cbn [rstrip] in IH. rewrite IH. reflexivity.
Qed.

Lemma rstrip_starts (s : string) (c : ascii) (s' : string) :
  s = String c s' -> is_space c = false ->
  exists r, rstrip s = String c r.
Proof.
  intros -> Hc. cbn [rstrip].
  destruct (rstrip s'); [rewrite Hc|]; eexists; reflexivity.
Qed.

Lemma strip_clean (s : string) : strip s <> "" -> clean (strip s).
Proof.
  intros Hne. unfold clean. split; [exact Hne|]. split.
  - unfold strip in *. pose proof (lstrip_starts s) as Hl.
    destruct (lstrip s) as [|c u] eqn:E; [now cbn in Hne|].
    destruct (rstrip_starts _ c u eq_refl Hl) as [r ->]. exact Hl.
  - unfold strip. apply rstrip_idem.
Qed.

Lemma lstrip_clean (s : string) : clean s -> lstrip s = s.
Proof.
  intros (_ & Hs & _). destruct s as [|c s]; [reflexivity|].
  cbn. now rewrite Hs.
Qed.

Lemma rstrip_app (a b : string) (c : ascii) (r : string) :
  rstrip b = String c r -> rstrip (a ++ b) = (a ++ rstrip b)%string.
Proof.
  intros Hb. induction a as [|d a IH]; [reflexivity|].
  cbn [append rstrip]. rewrite IH, Hb.
  destruct a; reflexivity.
Qed.

Lemma clean_app_space (a b : string) :
  clean a -> clean b -> clean (a ++ " " ++ b).
Proof.
  intros (Ha & Hsa & _) (Hb & Hsb & Hrb).
  destruct a as [|c a]; [congruence|].
  destruct b as [|d b]; [congruence|].
  split; [discriminate|]. split; [exact Hsa|].
  change (String c a ++ " " ++ String d b)%string
    with (String c a ++ (" " ++ String d b))%string.
  assert (Hr : rstrip (" " ++ String d b) = (" " ++ String d b)%string).
  { rewrite (rstrip_app " " (String d b) d b) by exact Hrb. now rewrite Hrb. }
  rewrite (rstrip_app (String c a) (" " ++ String d b) " " (String d b)),
    Hr; [reflexivity|exact Hr].
Qed.

Lemma concat_clean (words : list string) :
  words <> [] -> Forall clean words -> clean (String.concat " " words).
Proof.
  induction words as [|x [|y ws] IH]; intros Hne Hall; [congruence| |].
  - inversion Hall; assumption.
  - inversion Hall as [|? ? Hx Hrest]; subst.
    change (String.concat " " (x :: y :: ws))
      with (x ++ " " ++ String.concat " " (y :: ws))%string.
    apply clean_app_space; [exact Hx|]. apply IH; [discriminate | exact Hrest].
Qed.

Lemma strip_of_clean (s : string) : clean s -> strip s = s.
Proof.
  intros Hc. unfold strip. rewrite (lstrip_clean s Hc).
  now destruct Hc as (_ & _ & ->).
Qed.

Lemma has_digit_app (a b : string) :
  has_digit (a ++ b) = has_digit a || has_digit b.
Proof.
  induction a as [|c a IH]; [reflexivity|].
  cbn. now rewrite IH, orb_assoc.
Qed.

Lemma has_digit_concat (words : list string) :
  has_digit (String.concat " " words) = existsb has_digit words.
Proof.
  induction words as [|x [|y ws] IH]; [reflexivity| |].
  - cbn. now rewrite orb_false_r.
  - change (String.concat " " (x :: y :: ws))
      with (x ++ " " ++ String.concat " " (y :: ws))%string.
    rewrite !has_digit_app, IH. cbn [existsb has_digit].
    reflexivity.
Qed.

(** ** Lines of tokens *)

Lemma key_eqb_refl (k : line_key) : key_eqb k k = true.
Proof. destruct k as [[a b] c]. cbn. now rewrite !Z.eqb_refl. Qed.

Lemma token_step_kept (min_conf : Q) (min_size : Z) (lines : lines_dict) (t : Token) :
  kept min_conf min_size t = true ->
  token_step min_conf min_size lines t
  = add_to_lines (token_key t) (tok_left t) (tok_top t) (tok_width t)
                 (tok_height t) (strip (tok_text t)) (conf_of t) lines.
Proof.
  unfold kept, token_step. intros Hk.
  apply andb_true_iff in Hk as [Hk H3]. apply andb_true_iff in Hk as [H1 H2].
  apply negb_true_iff in H1, H2, H3. now rewrite H1, H2, H3.
Qed.

Lemma fold_single_line (min_conf : Q) (min_size : Z) (K : line_key) (ts : list Token) :
  forall d,
    (forall t, In t ts -> kept min_conf min_size t = true /\ token_key t = K) ->
    fold_left (token_step min_conf min_size) ts [(K, d)]
    = [(K, merge_tokens d ts)].
Proof.
  induction ts as [|t ts IH]; intros d Hall; [reflexivity|].
  destruct (Hall t (or_introl eq_refl)) as [Hk HK].
  cbn [fold_left]. rewrite token_step_kept by exact Hk.
  rewrite HK. cbn [add_to_lines]. rewrite key_eqb_refl.
  rewrite IH by (intros; apply Hall; now right). reflexivity.
Qed.

Lemma merge_tokens_words (d : Line) (ts : list Token) :
  ln_words (merge_tokens d ts)
  = (ln_words d ++ map (fun t => strip (tok_text t)) ts)%list.
Proof.
  revert d. induction ts as [|t ts IH]; intros d; cbn.
  - now rewrite app_nil_r.
  - unfold merge_tokens in IH. rewrite IH. cbn. now rewrite <- app_assoc.
Qed.

Lemma merge_tokens_bounds (d : Line) (ts : list Token) :
  (ln_x1 (merge_tokens d ts) <= ln_x1 d /\ ln_x2 d <= ln_x2 (merge_tokens d ts) /\
   ln_y1 (merge_tokens d ts) <= ln_y1 d /\ ln_y2 d <= ln_y2 (merge_tokens d ts)) /\
  forall t, In t ts ->
    ln_x1 (merge_tokens d ts) <= tok_left t /\
    tok_left t + tok_width t <= ln_x2 (merge_tokens d ts) /\
    ln_y1 (merge_tokens d ts) <= tok_top t /\
    tok_top t + tok_height t <= ln_y2 (merge_tokens d ts).
Proof.
  revert d. induction ts as [|t ts IH]; intros d.
  - cbn. split; [lia | intros ? []].
  - cbn [merge_tokens fold_left].
    destruct (IH (merge_line d (tok_left t) (tok_top t) (tok_width t)
                             (tok_height t) (strip (tok_text t)) (conf_of t)))
      as [Hb Hin].
    unfold merge_tokens in *. cbn [merge_line ln_x1 ln_x2 ln_y1 ln_y2] in Hb.
    split; [lia|].
    intros u [<-|Hu]; [lia | now apply Hin].
Qed.

Lemma line_box_digit (min_size : Z) (d : Line) (b : Box) :
  line_box min_size d = Some b ->
  box_text b = strip (String.concat " " (ln_words d)) /\
  has_digit (box_text b) = true.
Proof.
  unfold line_box.
  destruct (has_digit (strip (String.concat " " (ln_words d)))) eqn:E;
    [|discriminate]. cbn [negb].
  destruct (_ || _); [discriminate|]. intros [= <-]. cbn. now split.
Qed.


Lemma kept_inv (min_conf : Q) (min_size : Z) (t : Token) :
  kept min_conf min_size t = true ->
  clean (strip (tok_text t)) /\ (min_conf <= conf_of t)%Q /\
  min_size <= tok_width t /\ min_size <= tok_height t.
Proof.
  unfold kept. intros Hk.
  apply andb_true_iff in Hk as [Hk H3]. apply andb_true_iff in Hk as [H1 H2].
  apply negb_true_iff in H1, H2, H3.
  apply orb_false_iff in H3 as [Hw Hh].
  split; [apply strip_clean; now apply String.eqb_neq|].
  split; [now apply Qltb_ge|]. lia.
Qed.

Lemma existsb_map_strip (ts : list Token) :
  existsb has_digit (map (fun t => strip (tok_text t)) ts)
  = existsb (fun t => has_digit (strip (tok_text t))) ts.
Proof. induction ts as [|t ts IH]; [reflexivity|]. cbn. now rewrite IH. Qed.

(** ** Normalization (claim C8) *)

Lemma forallb_in01 (l : list Q) :
  forallb (fun v => Qle_bool 0 v && Qle_bool v 1) l = true -> Forall in01 l.
Proof.
  intros Hf. apply Forall_forall. intros v Hv.
  rewrite forallb_forall in Hf. specialize (Hf v Hv).
  apply andb_true_iff in Hf as [H0 H1].
  split; now apply Qle_bool_iff.
Qed.

Lemma clip01_in01 (v : Q) : in01 (clip01 v).
Proof.
  unfold clip01, qmin, qmax, in01.
  destruct (Qle_bool v 0) eqn:E0.
  - cbn. split; discriminate.
  - destruct (Qle_bool v 1) eqn:E1.
    + apply Qle_bool_iff in E1. split; [|exact E1].
      apply Qlt_le_weak, Qnot_le_lt. intros Hle.
      apply Qle_bool_iff in Hle. congruence.
    + split; discriminate.
Qed.

Lemma clip01_eq (x v : Q) : in01 v -> (x == v)%Q -> (clip01 x == v)%Q.
Proof.
  intros [H0 H1] Hx. unfold clip01, qmin, qmax.
  destruct (Qle_bool x 0) eqn:E0.
  - apply Qle_bool_iff in E0. cbn. lra.
  - destruct (Qle_bool x 1) eqn:E1; [exact Hx|].
    assert (Hn : ~ (x <= 1)%Q) by (intros Hle; apply Qle_bool_iff in Hle; congruence).
    exfalso. apply Hn. lra.
Qed.

Lemma Forall2_map_fix (f : Q -> Q) (l : list Q) :
  Forall in01 l -> (forall v, in01 v -> (f v == v)%Q) ->
  Forall2 Qeq (map f l) l.
Proof.
  intros Hl Hf. induction Hl as [|v l Hv _ IH]; cbn; constructor;
    [now apply Hf | exact IH].
Qed.

(** C8, as stated, fails: [ex_map51] normalizes to a map with values in
    [[0, 1]] whose entry 1 is 1/2, and normalizing that map again moves
    the entry to 1/3. *)
Lemma norm01_not_idempotent :
  Forall in01 (data (norm01 ex_map51)) /\
  (nth 1 (data (norm01 ex_map51)) 0 == 1 # 2)%Q /\
  (nth 1 (data (norm01 (norm01 ex_map51))) 0 == 1 # 3)%Q /\
  (nth 1 (data (norm01 ex_map51)) 0
   - nth 1 (data (norm01 (norm01 ex_map51))) 0 == 1 # 6)%Q.
Proof.
  split; [apply forallb_in01; vm_compute; reflexivity|].
  repeat split; vm_compute; reflexivity.
Qed.

(** C8 (amended).  The output of the normalization always has its
    values in [[0, 1]] and the shape of its input; and normalizing a map
    with values in [[0, 1]] returns every entry unchanged when the span
    between its 1st and 99th percentiles is below the epsilon, or when
    its 1st percentile is 0 and its 99th percentile is 1. *)
Theorem norm01_fixes_normalized_maps (m : ndarray) :
  Forall in01 (data m) ->
  (percentile (data m) 99 - percentile (data m) 1 < eps)%Q \/
  ((percentile (data m) 1 == 0)%Q /\ (percentile (data m) 99 == 1)%Q) ->
  (forall m' : ndarray,
     shape (norm01 m') = shape m' /\ Forall in01 (data (norm01 m'))) /\
  Forall2 Qeq (data (norm01 m)) (data m).
Proof.
  intros Hin Hp. split.
  - intros m'. split; [apply shape_norm01|].
    unfold norm01. destruct (Qltb _ _); cbn [data];
      apply Forall_map, Forall_forall; intros v _; apply clip01_in01.
  - unfold norm01.
    destruct (Qltb (percentile (data m) 99 - percentile (data m) 1) eps) eqn:E;
      cbn [data].
    + apply Forall2_map_fix; [exact Hin|].
      intros v Hv. apply clip01_eq; [exact Hv | reflexivity].
    + apply Qltb_ge in E. destruct Hp as [Hlt|[Hlo Hhi]];
        [exfalso; apply (Qlt_not_le _ _ Hlt E)|].
      apply Forall2_map_fix; [exact Hin|].
      intros v Hv. apply clip01_eq; [exact Hv|].
      rewrite Hlo, Hhi. field.
Qed.

Lemma norm01_fixes_normalized_maps_witness :
  Forall2 Qeq (data (norm01 (mkArr [1; 2]%nat [1 # 2; 1 # 2])))
              (data (mkArr [1; 2]%nat [1 # 2; 1 # 2])).
Proof.
  apply (norm01_fixes_normalized_maps (mkArr [1; 2]%nat [1 # 2; 1 # 2])).
  - repeat (apply Forall_cons; [split; discriminate|]). apply Forall_nil.
  - left. vm_compute. reflexivity.
Defined.

(** * Further properties of the code *)

(** ** File names of the exported crops *)

Lemma safe_filename_all_safe (s : string) : all_safe (safe_filename s) = true.
Proof.
  induction s as [|c s IH]; [reflexivity|]. cbn [safe_filename].
  destruct (is_safe_char c) eqn:Ec.
  - cbn. now rewrite Ec, IH.
  - destruct s as [|c' s']; [reflexivity|].
    destruct (is_safe_char c'); [|exact IH].
    cbn [all_safe]. now rewrite IH.
Qed.

Lemma safe_filename_fixes_safe (s : string) :
  all_safe s = true -> safe_filename s = s.
Proof.
  induction s as [|c s IH]; [reflexivity|]. cbn.
  intros Ha. apply andb_true_iff in Ha as [Hc Hs]. now rewrite Hc, IH.
Qed.

Lemma safe_filename_length (s : string) :
  (String.length (safe_filename s) <= String.length s)%nat.
Proof.
  induction s as [|c s IH]; [cbn; lia|]. cbn [safe_filename].
  destruct (is_safe_char c).
  - cbn. lia.
  - destruct s as [|c' s']; [cbn; lia|].
    destruct (is_safe_char c'); cbn [String.length] in *; lia.
Qed.

(** [safe_filename] returns a name made only of letters, digits, [.],
    [_] and [-], never longer than its argument; it leaves a name that
    is already of that form unchanged, so applying it twice is the same
    as applying it once. *)
Theorem safe_filename_safe_and_idempotent (s : string) :
  all_safe (safe_filename s) = true /\
  (String.length (safe_filename s) <= String.length s)%nat /\
  (all_safe s = true -> safe_filename s = s) /\
  safe_filename (safe_filename s) = safe_filename s.
Proof.
  split; [apply safe_filename_all_safe|].
  split; [apply safe_filename_length|].
  split; [apply safe_filename_fixes_safe|].
  apply safe_filename_fixes_safe, safe_filename_all_safe.
Qed.

(** ** Clamping and the exported patch *)

(** A box that already lies inside the image, with width and height of
    at least 1, is left unchanged by [clamp_box]. *)
Theorem clamp_box_fixes_inner_boxes (x y w h W H : Z) :
  0 <= x -> 0 <= y -> 1 <= w -> 1 <= h -> x + w <= W -> y + h <= H ->
  clamp_box x y w h W H = (x, y, w, h).
Proof.
  intros Hx Hy Hw Hh HW HH. unfold clamp_box. cbn.
  f_equal; [f_equal; [f_equal|]|]; lia.
Qed.

Lemma clamp_box_fixes_inner_boxes_witness :
  clamp_box 3 4 10 5 20 30 = (3, 4, 10, 5).
Proof.
  apply clamp_box_fixes_inner_boxes; lia.
Defined.

(** For a region inside the image and a margin of at least 0, the patch
    [save_crop] writes lies inside the image, starts [pad] pixels before
    the region (or at the border) and covers the region and its margin
    after it up to the border. *)
Theorem save_crop_covers_padded_roi (H W : nat) (roi : Box) (pad : Z)
  (x0 y0 w0 h0 : Z) :
  0 <= pad ->
  0 <= box_x roi -> 0 <= box_y roi -> 1 <= box_w roi -> 1 <= box_h roi ->
  box_x roi + box_w roi <= Z.of_nat W ->
  box_y roi + box_h roi <= Z.of_nat H ->
  save_crop H W roi pad = (x0, y0, w0, h0) ->
  (x0 = Z.max 0 (box_x roi - pad) /\ y0 = Z.max 0 (box_y roi - pad)) /\
  (1 <= w0 /\ 1 <= h0 /\ x0 + w0 <= Z.of_nat W /\ y0 + h0 <= Z.of_nat H) /\
  (Z.min (Z.of_nat W) (box_x roi + box_w roi + pad) <= x0 + w0 /\
   Z.min (Z.of_nat H) (box_y roi + box_h roi + pad) <= y0 + h0) /\
  (x0 <= box_x roi /\ box_x roi + box_w roi <= x0 + w0 /\
   y0 <= box_y roi /\ box_y roi + box_h roi <= y0 + h0).
Proof.
  intros Hp Hx Hy Hw Hh HW HH. unfold save_crop, clamp_box.
  remember (2 * pad) as p2 eqn:Ep2.
  intros Heq. injection Heq as <- <- <- <-. repeat split; lia.
Qed.

Lemma save_crop_covers_padded_roi_witness :
  (0 = Z.max 0 (10 - 28) /\ 72 = Z.max 0 (100 - 28)) /\
  (1 <= 96 /\ 1 <= 76 /\ 0 + 96 <= 200 /\ 72 + 76 <= 300) /\
  (Z.min 200 (10 + 40 + 28) <= 0 + 96 /\ Z.min 300 (100 + 20 + 28) <= 72 + 76) /\
  (0 <= 10 /\ 10 + 40 <= 0 + 96 /\ 72 <= 100 /\ 100 + 20 <= 72 + 76).
Proof.
  apply (save_crop_covers_padded_roi 300 200 (mkBox 10 100 40 20 "7h" 90) 28
           0 72 96 76); cbn; try lia; reflexivity.
Defined.

(** ** Which candidate the picker returns *)

Lemma collect_app (w : want) (H W : nat) (l1 l2 : bundle) :
  collect w H W (l1 ++ l2)%list
  = (cs1 <- collect w H W l1 ;; cs2 <- collect w H W l2 ;; Ok (cs1 ++ cs2)%list).
Proof.
  induction l1 as [|[k arr] l1 IH]; cbn [collect app bind].
  - destruct (collect w H W l2); reflexivity.
  - destruct (entry_candidate w H W arr) as [o|]; [|reflexivity]. cbn [bind].
    rewrite IH. destruct (collect w H W l1) as [cs1|]; [|reflexivity]. cbn [bind].
    destruct (collect w H W l2) as [cs2|]; [|reflexivity]. cbn [bind].
    now destruct o.
Qed.

Lemma collect_ranks (w : want) (H W : nat) (npz : bundle) :
  forall cs, collect w H W npz = Ok cs ->
  forall c, In c cs ->
    exists k arr, In (k, arr) npz /\
                  entry_candidate w H W arr = Ok (Some (cand_arr c)) /\
                  cand_rank c = name_rank w k.
Proof.
  induction npz as [|[k arr] rest IH]; intros cs Hc c Hin.
  - cbn in Hc. injection Hc as <-. destruct Hin.
  - cbn [collect] in Hc.
    destruct (entry_candidate w H W arr) as [o|] eqn:Ee; [|discriminate].
    cbn [bind] in Hc.
    destruct (collect w H W rest) as [cs'|]; [|discriminate].
    cbn [bind] in Hc. injection Hc as <-.
    assert (Hrest : In c cs' ->
                    exists k0 arr0, In (k0, arr0) ((k, arr) :: rest) /\
                      entry_candidate w H W arr0 = Ok (Some (cand_arr c)) /\
                      cand_rank c = name_rank w k0).
    { intros Hc'. destruct (IH cs' eq_refl c Hc') as (k0 & arr0 & Hi & He & Hr).
      exists k0, arr0. repeat split; [now right | exact He | exact Hr]. }
    destruct o as [a|]; [|now apply Hrest].
    destruct Hin as [<-|Hin]; [|now apply Hrest].
    exists k, arr. repeat split; [now left | exact Ee].
Qed.

Lemma sort_cand_head (pre post : list candidate) (c : candidate) :
  (forall d, In d pre -> cand_rank c < cand_rank d) ->
  (forall d, In d post -> cand_rank c <= cand_rank d) ->
  exists rest, sort_cand (pre ++ c :: post)%list = c :: rest.
Proof.
  intros Hpre Hpost. induction pre as [|d pre IH].
  - cbn [app sort_cand fold_right]. fold (sort_cand post).
    destruct (sort_cand post) as [|e l] eqn:Es; [now exists []|].
    assert (He : In e post) by (apply sort_cand_in; rewrite Es; now left).
    cbn [insert_cand].
    destruct (Z.leb_spec (cand_rank c) (cand_rank e)) as [_|Hlt];
      [now eexists|].
    specialize (Hpost e He). lia.
  - destruct IH as [rest Hrest]; [intros e He; apply Hpre; now right|].
    cbn [app sort_cand fold_right]. fold (sort_cand (pre ++ c :: post)%list).
    rewrite Hrest. cbn [insert_cand].
    destruct (Z.leb_spec (cand_rank d) (cand_rank c)) as [Hle|_];
      [|now eexists].
    specialize (Hpre d (or_introl eq_refl)). lia.
Qed.

(** [_pick_array] returns the earliest candidate of least rank: an entry
    that passes the test of the wanted role is picked when every
    candidate before it in the bundle has a strictly larger name rank
    and every candidate after it a rank at least as large. *)
Theorem pick_array_earliest_least_rank (npz pre post : bundle) (w : want)
  (H W : nat) (k : string) (arr a : ndarray) :
  npz = (pre ++ (k, arr) :: post)%list ->
  entry_candidate w H W arr = Ok (Some a) ->
  (forall k' arr', In (k', arr') pre ->
     exists o, entry_candidate w H W arr' = Ok o /\
               (o <> None -> name_rank w k < name_rank w k')) ->
  (forall k' arr', In (k', arr') post ->
     exists o, entry_candidate w H W arr' = Ok o /\
               (o <> None -> name_rank w k <= name_rank w k')) ->
  _pick_array npz w H W = Ok (Some a).
Proof.
  intros -> Ha Hpre Hpost.
  destruct (collect_ok w H W pre) as [cs1 Hc1].
  { intros k' arr' Hin. destruct (Hpre k' arr' Hin) as (o & Ho & _). now exists o. }
  destruct (collect_ok w H W post) as [cs2 Hc2].
  { intros k' arr' Hin. destruct (Hpost k' arr' Hin) as (o & Ho & _). now exists o. }
  assert (Hcol : collect w H W (pre ++ (k, arr) :: post)%list
                 = Ok (cs1 ++ (name_rank w k, k, a) :: cs2)%list).
  { rewrite collect_app, Hc1. cbn [bind collect]. rewrite Ha. cbn [bind].
    rewrite Hc2. reflexivity. }
  unfold _pick_array. rewrite Hcol. cbn [bind].
  assert (Hhead : exists rest,
             sort_cand (cs1 ++ (name_rank w k, k, a) :: cs2)%list
             = (name_rank w k, k, a) :: rest);
    [apply sort_cand_head|
     destruct Hhead as [rest Hrest];
     exact (f_equal (fun l : list candidate =>
                       match l with
                       | [] => Ok None
                       | c :: _ => Ok (Some (cand_arr c))
                       end) Hrest)].
  - intros d Hd.
    destruct (collect_ranks _ _ _ _ _ Hc1 d Hd) as (k' & arr' & Hin & He & Hr).
    destruct (Hpre k' arr' Hin) as (o & Ho & Hlt).
    rewrite Hr. cbn. apply Hlt. congruence.
  - intros d Hd.
    destruct (collect_ranks _ _ _ _ _ Hc2 d Hd) as (k' & arr' & Hin & He & Hr).
    destruct (Hpost k' arr' Hin) as (o & Ho & Hle).
    rewrite Hr. cbn. apply Hle. congruence.
Qed.

(** In [ex_npz] the entry named "conf" is picked as reliability map
    although the entry "map" comes first and passes the same shape
    test. *)
Lemma pick_array_earliest_least_rank_witness :
  _pick_array ex_npz WantRel 2 2 = Ok (Some (mkArr [2; 2]%nat [1; 1; 0; 1]%Q)).
Proof.
  apply (pick_array_earliest_least_rank ex_npz
           [("score", mkArr [] [5 # 16]);
            ("map", mkArr [2; 2]%nat [0; 1; 1 # 2; 1]%Q)]
           [] WantRel 2 2 "conf" (mkArr [2; 2]%nat [1; 1; 0; 1]%Q)).
  - reflexivity.
  - reflexivity.
  - intros k' arr' [[= <- <-]|[[= <- <-]|[]]]; eexists; (split; [reflexivity|]).
    + intros Hn. now contradiction Hn.
    + intros _. reflexivity.
  - intros k' arr' [].
Defined.

(** ** When the picker and the resolver raise *)

Lemma map_candidate_cases (H W : nat) (arr : ndarray) :
  (empty_channels H W arr = true /\ map_candidate H W arr = Raise IndexError) \/
  (empty_channels H W arr = false /\ exists o, map_candidate H W arr = Ok o).
Proof.
  destruct arr as [sh dt]. unfold empty_channels, map_candidate, index_first,
    index_last, channel0. cbn [shape data].
  destruct sh as [|d0 [|d1 [|d2 [|d3 sh]]]];
    try (right; split; [reflexivity | eexists; reflexivity]).
  - right. split; [reflexivity|]. destruct (_ && _); eexists; reflexivity.
  - destruct ((d1 =? H)%nat && (d2 =? W)%nat).
    + destruct (Nat.eqb_spec d0 0) as [->|Hne].
      * left. split; reflexivity.
      * right. split; [reflexivity|].
        destruct (d0 =? 1)%nat; eexists; reflexivity.
    + destruct ((d0 =? H)%nat && (d1 =? W)%nat).
      * destruct (d2 =? 0)%nat; [left; split; reflexivity|].
        right. split; [reflexivity | eexists; reflexivity].
      * right. split; [reflexivity | eexists; reflexivity].
Qed.

Lemma collect_map_cases (w : want) (H W : nat) (npz : bundle) :
  w <> WantScore ->
  (has_empty_channels H W npz = true /\ collect w H W npz = Raise IndexError) \/
  (has_empty_channels H W npz = false /\ exists cs, collect w H W npz = Ok cs).
Proof.
  intros Hw.
  assert (Hentry : forall arr, entry_candidate w H W arr = map_candidate H W arr)
    by (intros; destruct w; [congruence | reflexivity | reflexivity]).
  induction npz as [|[k arr] rest IH].
  - right. split; [reflexivity | now exists []].
  - unfold has_empty_channels in *. cbn [existsb snd collect]. rewrite Hentry.
    destruct (map_candidate_cases H W arr) as [[-> ->]|[-> [o ->]]].
    + left. split; reflexivity.
    + cbn [orb bind]. destruct IH as [[-> ->]|[-> [cs ->]]].
      * left. split; reflexivity.
      * right. split; [reflexivity | eexists; reflexivity].
Qed.

(** [_pick_array] raises only for the roles ['loc'] and ['rel'], exactly
    when the bundle holds a three-dimensional entry that matches the
    image shape and has no channel; the exception is then numpy's
    [IndexError].  For the role ['score'] it never raises. *)
Theorem pick_array_raises_iff (npz : bundle) (w : want) (H W : nat) (e : exn) :
  _pick_array npz w H W = Raise e <->
  w <> WantScore /\ has_empty_channels H W npz = true /\ e = IndexError.
Proof.
  destruct w.
  - split.
    + intros Hr.
      destruct (pick_score_spec npz H W) as [(_ & Hp & _)|(_ & k & sa & _ & _ & Hp)];
        congruence.
    + intros [Hw _]. congruence.
  - unfold _pick_array.
    destruct (collect_map_cases WantLoc H W npz ltac:(discriminate))
      as [[He ->]|[He [cs ->]]]; cbn [bind].
    + split; [intros [= <-]; repeat split; [discriminate | exact He] |
              intros (_ & _ & ->); reflexivity].
    + split; [destruct (sort_cand cs); discriminate | intros (_ & Ht & _); congruence].
  - unfold _pick_array.
    destruct (collect_map_cases WantRel H W npz ltac:(discriminate))
      as [[He ->]|[He [cs ->]]]; cbn [bind].
    + split; [intros [= <-]; repeat split; [discriminate | exact He] |
              intros (_ & _ & ->); reflexivity].
    + split; [destruct (sort_cand cs); discriminate | intros (_ & Ht & _); congruence].
Qed.

Lemma pick_map_spec_gen (npz : bundle) (w : want) (H W : nat) :
  w <> WantScore -> has_empty_channels H W npz = false ->
  (has_map H W npz = false /\ _pick_array npz w H W = Ok None) \/
  (has_map H W npz = true /\
   exists k arr a, In (k, arr) npz /\ map_candidate H W arr = Ok (Some a) /\
                   _pick_array npz w H W = Ok (Some a)).
Proof.
  intros Hw Hne.
  assert (Hentry : forall arr, entry_candidate w H W arr = map_candidate H W arr)
    by (intros; destruct w; [congruence | reflexivity | reflexivity]).
  destruct (collect_map_cases w H W npz Hw) as [[He _]|[_ [cs Hc]]]; [congruence|].
  destruct (collect_spec _ _ _ _ _ Hc) as [Hin Hnil].
  destruct (pick_of_collect _ _ _ _ _ Hc) as [[-> Hp]|(c & Hc' & Hp)].
  - left. split; [|exact Hp]. unfold has_map, is_map.
    destruct (existsb _ npz) eqn:E; [|reflexivity].
    apply existsb_exists in E as [[k arr] [Hi Hs]]. cbn in Hs.
    rewrite <- Hentry, (proj1 Hnil eq_refl k arr Hi) in Hs. discriminate.
  - right. destruct (Hin c Hc') as (k & arr & Hi & He). rewrite Hentry in He.
    split.
    + unfold has_map, is_map. apply existsb_exists. exists (k, arr).
      split; [exact Hi|]. cbn. now rewrite He.
    + exists k, arr, (cand_arr c). repeat split; assumption.
Qed.

(** The three outcomes of [load_trufor_outputs], for every bundle: an
    entry with empty channels makes it raise [IndexError], even when a
    role is missing as well; otherwise it raises the [KeyError] when no
    size-1 entry or no map entry exists, and returns in the remaining
    case. *)
Theorem load_trufor_outputs_outcomes (npz_path : string) (npz : bundle) (H W : nat) :
  (has_empty_channels H W npz = true ->
   load_trufor_outputs npz_path npz H W = Raise IndexError) /\
  (has_empty_channels H W npz = false ->
   has_score npz = false \/ has_map H W npz = false ->
   load_trufor_outputs npz_path npz H W = Raise (KeyError npz_path (keys npz))) /\
  (has_empty_channels H W npz = false ->
   has_score npz = true -> has_map H W npz = true ->
   exists outs, load_trufor_outputs npz_path npz H W = Ok outs).
Proof.
  unfold load_trufor_outputs.
  assert (Hs : exists o, _pick_array npz WantScore H W = Ok o).
  { destruct (pick_score_spec npz H W) as [(_ & Hp & _)|(_ & k & sa & _ & _ & Hp)];
      eexists; exact Hp. }
  destruct Hs as [o Hs]. split; [|split].
  - intros He. rewrite Hs. cbn [bind].
    assert (Hl : _pick_array npz WantLoc H W = Raise IndexError).
    { unfold _pick_array.
      destruct (collect_map_cases WantLoc H W npz ltac:(discriminate))
        as [[_ ->]|[Hn _]]; [reflexivity | congruence]. }
    now rewrite Hl.
  - intros He Hmiss.
    destruct (pick_score_spec npz H W)
      as [(Hsc & Hps & Hany)|(Hsc & ks & sa & His & Hsz & Hps)];
    destruct (pick_map_spec_gen npz WantLoc H W ltac:(discriminate) He)
      as [(Hm & Hpl)|(Hm & kl & al & l & Hil & Hml & Hpl)];
    destruct (pick_map_spec_gen npz WantRel H W ltac:(discriminate) He)
      as [(Hm' & Hpr)|(Hm' & kr & ar & r & Hir & Hmr & Hpr)];
    try congruence; try (destruct Hmiss; congruence);
    rewrite Hps, Hpl, Hpr; cbn [bind]; unfold resolve_picked; rewrite ?Hany;
    reflexivity.
  - intros He Hsc Hm.
    destruct (pick_score_spec npz H W)
      as [(Hsc' & _)|(_ & ks & sa & His & Hsz & Hps)]; [congruence|].
    destruct (pick_map_spec_gen npz WantLoc H W ltac:(discriminate) He)
      as [(Hm' & _)|(_ & kl & al & l & Hil & Hml & Hpl)]; [congruence|].
    destruct (pick_map_spec_gen npz WantRel H W ltac:(discriminate) He)
      as [(Hm' & _)|(_ & kr & ar & r & Hir & Hmr & Hpr)]; [congruence|].
    rewrite Hps, Hpl, Hpr. cbn [bind]. unfold resolve_picked. eexists. reflexivity.
Qed.

Lemma load_trufor_outputs_outcomes_witness :
  load_trufor_outputs "a.npz"
    [("map", mkArr [2; 2]%nat [0; 1; 1 # 2; 1]%Q);
     ("aux", mkArr [2; 2; 0]%nat [])] 2 2 = Raise IndexError /\
  load_trufor_outputs "a.npz" [("map", mkArr [2; 2]%nat [0; 1; 1 # 2; 1]%Q)] 2 2
  = Raise (KeyError "a.npz" ["map"]) /\
  exists outs, load_trufor_outputs "a.npz" ex_npz 2 2 = Ok outs.
Proof.
  split; [|split].
  - apply (proj1 (load_trufor_outputs_outcomes "a.npz"
                    [("map", mkArr [2; 2]%nat [0; 1; 1 # 2; 1]%Q);
                     ("aux", mkArr [2; 2; 0]%nat [])] 2 2)).
    reflexivity.
  - apply (proj1 (proj2 (load_trufor_outputs_outcomes "a.npz"
                           [("map", mkArr [2; 2]%nat [0; 1; 1 # 2; 1]%Q)] 2 2)));
      [reflexivity | left; reflexivity].
  - apply (proj2 (proj2 (load_trufor_outputs_outcomes "a.npz" ex_npz 2 2)));
      reflexivity.
Defined.

Lemma safe_filename_safe_and_idempotent_witness :
  safe_filename "roi-0.281_g0.300.png" = "roi-0.281_g0.300.png" /\
  safe_filename (safe_filename "task 7/col#1") = safe_filename "task 7/col#1".
Proof.
  split.
  - apply (proj1 (proj2 (proj2 (safe_filename_safe_and_idempotent
                                  "roi-0.281_g0.300.png")))).
    reflexivity.
  - apply (proj2 (proj2 (proj2 (safe_filename_safe_and_idempotent "task 7/col#1")))).
Defined.

(** ** The maps a resolution returns *)

Lemma pick_some_inv (npz : bundle) (w : want) (H W : nat) (a : ndarray) :
  _pick_array npz w H W = Ok (Some a) ->
  exists k arr, In (k, arr) npz /\ entry_candidate w H W arr = Ok (Some a).
Proof.
  unfold _pick_array. intros Hp.
  destruct (collect w H W npz) as [cs|] eqn:Hc; [|discriminate].
  cbn [bind] in Hp.
  destruct (sort_cand cs) as [|c rest] eqn:Es; [discriminate|].
  injection Hp as <-.
  assert (Hin : In c cs) by (apply sort_cand_in; rewrite Es; now left).
  destruct (collect_spec _ _ _ _ _ Hc) as [Hall _].
  apply (Hall c Hin).
Qed.

Lemma norm01_in01 (m : ndarray) : Forall in01 (data (norm01 m)).
Proof.
  unfold norm01. destruct (Qltb _ _); cbn [data];
    apply Forall_map, Forall_forall; intros v _; apply clip01_in01.
Qed.

Lemma wf_ones (H W : nat) : wf_array (ones H W).
Proof.
  unfold wf_array, ones, size. cbn. rewrite repeat_length. lia.
Qed.

(** What a successful resolution is made of. *)
Lemma load_ok_inv (npz_path : string) (npz : bundle) (H W : nat) (outs : Outputs) :
  load_trufor_outputs npz_path npz H W = Ok outs ->
  exists l r,
    out_loc outs = norm01 l /\ out_rel outs = norm01 r /\
    shape l = [H; W] /\ shape r = [H; W] /\
    (Forall (fun kv => wf_array (snd kv)) npz -> wf_array l /\ wf_array r).
Proof.
  unfold load_trufor_outputs. intros Hl.
  destruct (_pick_array npz WantScore H W) as [os|]; [|discriminate].
  cbn [bind] in Hl.
  destruct (_pick_array npz WantLoc H W) as [[l|]|] eqn:Hpl; cbn [bind] in Hl;
    try discriminate.
  2:{ destruct (_pick_array npz WantRel H W); cbn [bind] in Hl; [|discriminate].
      unfold resolve_picked in Hl. destruct os; [discriminate|].
      destruct (any_size1 npz); discriminate. }
  destruct (_pick_array npz WantRel H W) as [orel|] eqn:Hpr; [|discriminate].
  cbn [bind] in Hl. unfold resolve_picked in Hl.
  destruct (match os with Some a => Some a | None => any_size1 npz end);
    [|discriminate].
  injection Hl as <-. cbn [out_loc out_rel].
  destruct (pick_some_inv _ _ _ _ _ Hpl) as (kl & al & Hil & Hml). cbn in Hml.
  destruct orel as [r|].
  - destruct (pick_some_inv _ _ _ _ _ Hpr) as (kr & ar & Hir & Hmr). cbn in Hmr.
    exists l, r. repeat split; try reflexivity.
    + now apply (map_candidate_shape H W al).
    + now apply (map_candidate_shape H W ar).
    + rewrite Forall_forall in H0.
      apply (map_candidate_wf H W al); [apply (H0 (kl, al) Hil) | exact Hml].
    + rewrite Forall_forall in H0.
      apply (map_candidate_wf H W ar); [apply (H0 (kr, ar) Hir) | exact Hmr].
  - exists l, (ones H W). repeat split; try reflexivity.
    + now apply (map_candidate_shape H W al).
    + rewrite Forall_forall in H0.
      apply (map_candidate_wf H W al); [apply (H0 (kl, al) Hil) | exact Hml].
    + apply wf_ones.
Qed.

(** Whenever [load_trufor_outputs] returns, both maps have the shape of
    the image and all their values in [[0, 1]]; they have H * W entries
    when the entries of the bundle are well formed. *)
Theorem load_returns_normalized_maps
  (npz_path : string) (npz : bundle) (H W : nat) (outs : Outputs) :
  load_trufor_outputs npz_path npz H W = Ok outs ->
  shape (out_loc outs) = [H; W] /\ shape (out_rel outs) = [H; W] /\
  Forall in01 (data (out_loc outs)) /\ Forall in01 (data (out_rel outs)) /\
  (Forall (fun kv => wf_array (snd kv)) npz ->
   wf_array (out_loc outs) /\ wf_array (out_rel outs)).
Proof.
  intros Hl.
  destruct (load_ok_inv _ _ _ _ _ Hl) as (l & r & -> & -> & Hsl & Hsr & Hwf).
  rewrite !shape_norm01. repeat split; try assumption; try apply norm01_in01;
    apply wf_norm01; now apply Hwf.
Qed.

Lemma load_returns_normalized_maps_witness :
  shape (mkArr [2; 2]%nat
           [0; 3940000 # 3940000; 3880000 # 7880000; 3940000 # 3940000]%Q)
  = [2; 2]%nat /\
  Forall in01 [0; 3940000 # 3940000; 3880000 # 7880000; 3940000 # 3940000]%Q.
Proof.
  destruct (load_returns_normalized_maps "a.npz" ex_npz 2 2
              (mkOutputs (5 # 16)
                 (mkArr [2; 2]%nat
                    [0; 3940000 # 3940000; 3880000 # 7880000; 3940000 # 3940000]%Q)
                 (mkArr [2; 2]%nat
                    [970000 # 970000; 970000 # 970000; 0; 970000 # 970000]%Q))
              ltac:(vm_compute; reflexivity))
    as (Hs & _ & Hi & _).
  split; [exact Hs | exact Hi].
Defined.

(** ** How an analysis ends *)

Lemma roi_anomaly_score_2d (loc rel : ndarray) (H W : nat) (roi : Box) (rel_min : Q) :
  shape loc = [H; W] -> exists s, roi_anomaly_score loc rel roi rel_min = Ok s.
Proof.
  intros Hs. unfold roi_anomaly_score. rewrite Hs.
  destruct (clamp_box _ _ _ _ _ _) as [[[x y] w] h].
  destruct (Qltb _ _); eexists; reflexivity.
Qed.

Lemma score_rois_2d (loc rel : ndarray) (H W : nat) (rel_min : Q) (rois : list Box) :
  shape loc = [H; W] ->
  forall mx b, exists mb, score_rois loc rel rel_min rois mx b = Ok mb.
Proof.
  intros Hs. induction rois as [|roi rest IH]; intros mx b; [now eexists|].
  cbn [score_rois].
  destruct (roi_anomaly_score_2d loc rel H W roi rel_min Hs) as [s ->].
  cbn [bind]. destruct (Qltb mx s); apply IH.
Qed.

(** [analyze_image] raises exactly the exception of the first
    collaborator that fails, in the order forensics model, resolver, OCR
    engine, and only for an image that was read; scoring the regions
    never raises, and an unreadable image gives a result, not an
    exception. *)
Theorem analyze_image_raises_iff (env : Env) (min_conf : Q) (min_size : Z)
  (global_thresh roi_thresh rel_min : Q) (e : exn) :
  analyze_image env min_conf min_size global_thresh roi_thresh rel_min = Raise e <->
  exists H W,
    env_imread env = Some (H, W) /\
    (env_trufor env = Raise e \/
     exists path,
       env_trufor env = Ok path /\
       (load_trufor_outputs path (env_npz env) H W = Raise e \/
        exists outs,
          load_trufor_outputs path (env_npz env) H W = Ok outs /\
          env_ocr env = Raise e)).
Proof.
  unfold analyze_image.
  destruct (env_imread env) as [[H W]|].
  2:{ split; [discriminate | intros (H & W & Him & _); discriminate]. }
  destruct (env_trufor env) as [path|e1]; cbn [bind].
  2:{ split.
      - intros [= <-]. exists H, W. split; [reflexivity | now left].
      - intros (H' & W' & _ & [Ht|(p & Ht & _)]); congruence. }
  destruct (load_trufor_outputs path (env_npz env) H W) as [outs|e2] eqn:El;
    cbn [bind].
  2:{ split.
      - intros [= <-]. exists H, W. split; [reflexivity|]. right.
        exists path. split; [reflexivity | now left].
      - intros (H' & W' & [= <- <-] & [Ht|(p & [= <-] & [Hl|(o & Hl & _)])]);
          congruence. }
  destruct (env_ocr env) as [tokens|e3]; cbn [bind].
  2:{ split.
      - intros [= <-]. exists H, W. split; [reflexivity|]. right.
        exists path. split; [reflexivity|]. right. now exists outs.
      - intros (H' & W' & [= <- <-] & [Ht|(p & [= <-] & [Hl|(o & Hl & Ho)])]);
          congruence. }
  assert (Hsl : shape (out_loc outs) = [H; W]).
  { destruct (load_ok_inv _ _ _ _ _ El) as (l & r & Hol & _ & Hl & _).
    now rewrite Hol, shape_norm01. }
  destruct (score_rois_2d (out_loc outs) (out_rel outs) H W rel_min
              (ocr_line_boxes tokens min_conf min_size) Hsl 0%Q None)
    as [[mx best] ->].
  cbn [bind]. split; [discriminate|].
  intros (H' & W' & [= <- <-] & [Ht|(p & [= <-] & [Hl|(o & Hl & Ho)])]);
    congruence.
Qed.

(** ** Ranges of a completed analysis *)

Lemma roi_anomaly_score_in01 (loc rel : ndarray) (H W : nat) (roi : Box)
  (rel_min s : Q) :
  (1 <= W)%nat -> (1 <= H)%nat ->
  shape loc = [H; W] -> shape rel = [H; W] -> wf_array loc -> wf_array rel ->
  Forall in01 (data loc) -> Forall in01 (data rel) ->
  roi_anomaly_score loc rel roi rel_min = Ok s -> in01 s.
Proof.
  intros HW HH Hsl Hsr Hwl Hwr Hl Hr.
  destruct (clamp_box_nat (box_x roi) (box_y roi) (box_w roi) (box_h roi) W H HW HH)
    as (x & y & w & h & Hc & Hx & Hy & _ & _).
  rewrite (roi_anomaly_score_eq loc rel H W roi rel_min x y w h) by assumption.
  intros [= <-]. destruct (Qltb _ _).
  - assert (Hm : in01 (region_mean
                         (fun i j => pixel loc W i j * pixel rel W i j)%Q x y w h)).
    { apply region_mean_in01. intros i j.
      apply in01_mult; apply in01_pixel; assumption. }
    destruct Hm as [Hm0 Hm1]. split; lra.
  - unfold spec_masked_mean. apply region_mean_in01. intros i j.
    apply in01_mult; [now apply in01_pixel | apply in01_reliable].
Qed.

(** In a completed analysis of a non-empty image whose bundle is well
    formed, the maximum region score lies in [[0, 1]], the region count
    is the number of extracted regions, the best region is one of them,
    and there is no best region exactly when the maximum is 0. *)
Theorem analysis_result_ranges (env : Env) (min_conf : Q) (min_size : Z)
  (global_thresh roi_thresh rel_min : Q) (H W : nat) (tokens : list Token)
  (status : string) (score mx : Q) (n : nat) (best : option Box) (path : string) :
  env_imread env = Some (H, W) -> (1 <= H)%nat -> (1 <= W)%nat ->
  Forall (fun kv => wf_array (snd kv)) (env_npz env) ->
  env_ocr env = Ok tokens ->
  analyze_image env min_conf min_size global_thresh roi_thresh rel_min
  = Ok (Analysed status score mx n best path) ->
  in01 mx /\
  n = List.length (ocr_line_boxes tokens min_conf min_size) /\
  (forall b, best = Some b -> In b (ocr_line_boxes tokens min_conf min_size)) /\
  (best = None <-> mx = 0%Q).
Proof.
  intros Him HH HW Hwf Ho Ha.
  destruct (analyze_image_inv _ _ _ _ _ _ _ _ _ _ _ _ Ha)
    as (H' & W' & outs & tokens' & Him' & _ & Hl & Ho' & _ & Hn & Hrun & _).
  assert (H' = H /\ W' = W) as [-> ->] by (split; congruence).
  assert (tokens' = tokens) as -> by congruence.
  destruct (load_ok_inv _ _ _ _ _ Hl) as (l & r & Hol & Hor & Hsl & Hsr & Hw).
  destruct (Hw Hwf) as [Hwl Hwr].
  destruct (score_rois_spec _ _ _ _ _ _ _ _ Hrun) as (_ & Hcase & _).
  assert (Hscore : forall b, roi_anomaly_score (out_loc outs) (out_rel outs) b rel_min
                             = Ok mx -> in01 mx).
  { intros b. rewrite Hol, Hor.
    apply (roi_anomaly_score_in01 (norm01 l) (norm01 r) H W); try assumption;
      rewrite ?shape_norm01; try assumption;
      try apply wf_norm01; try assumption; apply norm01_in01. }
  destruct Hcase as [[-> ->]|(i & b & Hnth & -> & Hsb & Hgt & _)].
  - repeat split; try discriminate; try reflexivity; try exact Hn.
  - split; [now apply (Hscore b)|]. split; [exact Hn|]. split.
    + intros b' [= <-]. eapply nth_error_In; eassumption.
    + split; [discriminate|]. intros ->. exfalso. apply (Qlt_irrefl _ Hgt).
Qed.

Lemma analysis_result_ranges_witness :
  in01 (3940000 # 3940000) /\
  3%nat = List.length (ocr_line_boxes ex_tokens 40 1) /\
  (forall b, Some (mkBox 1 0 1 1 "7h" 90) = Some b ->
             In b (ocr_line_boxes ex_tokens 40 1)) /\
  (Some (mkBox 1 0 1 1 "7h" 90) = None <-> (3940000 # 3940000) = 0%Q).
Proof.
  apply (analysis_result_ranges ex_env 40 1 (1 # 2) (22 # 100) (4 # 10) 2 2
           ex_tokens "flagged" (5 # 16) (3940000 # 3940000) 3
           (Some (mkBox 1 0 1 1 "7h" 90)) "out/a.png.npz");
    try reflexivity; try lia; repeat constructor.
Defined.

(** ** Rows of the report *)

Lemma analysed_status (env : Env) (min_conf : Q) (min_size : Z)
  (global_thresh roi_thresh rel_min : Q)
  (status : string) (score mx : Q) (n : nat) (best : option Box) (path : string) :
  analyze_image env min_conf min_size global_thresh roi_thresh rel_min
  = Ok (Analysed status score mx n best path) ->
  (status = "flagged" \/ status = "ok") /\ exists HW, env_imread env = Some HW.
Proof.
  intros Ha.
  destruct (analyze_image_inv _ _ _ _ _ _ _ _ _ _ _ _ Ha)
    as (H & W & _ & _ & Him & _ & _ & _ & _ & _ & _ & Hst).
  split; [|now exists (H, W)].
  rewrite Hst. destruct (flagged _ _ _ _); [now left | now right].
Qed.

Lemma export_crop_raises_iff (env : Env) (roi : Box) :
  (exists e, export_crop env roi = Raise e) <->
  (exists e, env_crop_name env = Raise e) \/ env_reread env = None \/
  (exists e, env_write env = Raise e).
Proof.
  unfold export_crop.
  destruct (env_crop_name env) as [name|e0]; cbn [bind].
  - destruct (env_reread env) as [[H W]|].
    + destruct (env_write env) as [[]|e1]; cbn [bind].
      * split; [intros [e He]; discriminate|].
        intros [[e He]|[He|[e He]]]; discriminate.
      * split; [|now exists e1]. intros _. right. right. now exists e1.
    + split; [|now exists AttributeError]. intros _. right. now left.
  - split; [|now exists e0]. intros _. left. now exists e0.
Qed.

(** The row of one image path: its status is [ok], [flagged] or
    [error]; it is [error] exactly when the file is missing, the image
    cannot be read, the analysis raised, or the image is flagged with a
    best region and the export step raised (the crop name cannot be
    built, the image cannot be read again, or the patch cannot be
    written); an [error] row carries no score, no region, no bundle path
    and no crop; a missing file is reported as such whatever the
    collaborators would have done; and a crop is written only in a
    [flagged] row that names a best region, and is then the patch of
    that region in the image read again. *)
Theorem process_image_row (env : Env) (min_conf : Q) (min_size : Z)
  (global_thresh roi_thresh rel_min : Q) :
  let row := process_image env min_conf min_size global_thresh roi_thresh rel_min in
  (row_status row = "ok" \/ row_status row = "flagged" \/ row_status row = "error") /\
  (row_status row = "error" <->
   env_exists env = false \/ env_imread env = None \/
   (exists e, analyze_image env min_conf min_size global_thresh roi_thresh rel_min
              = Raise e) \/
   (exists score mx n b path,
       analyze_image env min_conf min_size global_thresh roi_thresh rel_min
       = Ok (Analysed "flagged" score mx n (Some b) path) /\
       ((exists e, env_crop_name env = Raise e) \/ env_reread env = None \/
        (exists e, env_write env = Raise e)))) /\
  (row_status row = "error" ->
   row_trufor_score row = None /\ row_max_roi_score row = None /\
   row_n_rois row = 0%nat /\ row_npz_path row = "" /\ row_crop row = None) /\
  (env_exists env = false -> row = error_row (Message "File not found")) /\
  (forall p, row_crop row = Some p ->
   row_status row = "flagged" /\
   exists score mx n b path H2 W2,
     analyze_image env min_conf min_size global_thresh roi_thresh rel_min
     = Ok (Analysed "flagged" score mx n (Some b) path) /\
     row_best_roi_conf row = Some (box_conf b) /\
     env_reread env = Some (H2, W2) /\ p = save_crop H2 W2 b 28).
Proof.
  cbv zeta. unfold process_image.
  destruct (env_exists env); cbn [negb].
  2:{ cbn. repeat split; try tauto; try (intros; discriminate); auto. }
  destruct (analyze_image env min_conf min_size global_thresh roi_thresh rel_min)
    as [[|status score mx n best path]|e] eqn:Ha.
  - assert (Him : env_imread env = None).
    { unfold analyze_image in Ha. destruct (env_imread env) as [[H W]|]; [|reflexivity].
      destruct (env_trufor env); cbn [bind] in Ha; [|discriminate].
      destruct (load_trufor_outputs _ _ _ _); cbn [bind] in Ha; [|discriminate].
      destruct (env_ocr env); cbn [bind] in Ha; [|discriminate].
      destruct (score_rois _ _ _ _ _ _) as [[? ?]|]; discriminate. }
    cbn. repeat split; try tauto; try (intros; discriminate); auto.
  - destruct (analysed_status _ _ _ _ _ _ _ _ _ _ _ _ Ha) as [Hst [[H W] Him]].
    assert (Hplain :
      forall written : option (Z * Z * Z * Z),
        (written = None \/
         exists b H2 W2, status = "flagged" /\ best = Some b /\
           env_reread env = Some (H2, W2) /\ written = Some (save_crop H2 W2 b 28)) ->
        (forall b, status = "flagged" -> best = Some b ->
           ~ ((exists e, env_crop_name env = Raise e) \/ env_reread env = None \/
              (exists e, env_write env = Raise e))) ->
        let row := mkRow status NoError (Some score) (Some mx) n path
                     (match best with
                      | Some roi => substring 0 80 (box_text roi)
                      | None => ""
                      end)
                     (match best with
                      | Some roi => Some (box_conf roi)
                      | None => None
                      end) written in
        (row_status row = "ok" \/ row_status row = "flagged" \/ row_status row = "error") /\
        (row_status row = "error" <->
         true = false \/ env_imread env = None \/
         (exists e, @Ok Analysis (Analysed status score mx n best path) = Raise e) \/
         (exists score' mx' n' b path',
             Ok (Analysed status score mx n best path)
             = Ok (Analysed "flagged" score' mx' n' (Some b) path') /\
             ((exists e, env_crop_name env = Raise e) \/ env_reread env = None \/
              (exists e, env_write env = Raise e)))) /\
        (row_status row = "error" ->
         row_trufor_score row = None /\ row_max_roi_score row = None /\
         row_n_rois row = 0%nat /\ row_npz_path row = "" /\ row_crop row = None) /\
        (true = false -> row = error_row (Message "File not found")) /\
        (forall p, row_crop row = Some p ->
         row_status row = "flagged" /\
         exists score' mx' n' b path' H2 W2,
           Ok (Analysed status score mx n best path)
           = Ok (Analysed "flagged" score' mx' n' (Some b) path') /\
           row_best_roi_conf row = Some (box_conf b) /\
           env_reread env = Some (H2, W2) /\ p = save_crop H2 W2 b 28)).
    { intros written Hw Hno. cbv zeta.
      cbn [row_status row_trufor_score row_max_roi_score row_n_rois
           row_npz_path row_crop row_best_roi_conf].
      split; [destruct Hst as [-> | ->]; auto|].
      split; [|split; [|split]].
      - split.
        + intros ->. destruct Hst; discriminate.
        + intros [Hf|[Hn|[[e He]|(s' & m' & n' & b & p' & Heq & Hexp)]]];
            try congruence.
          injection Heq as -> _ _ _ -> _. exfalso. now apply (Hno b).
      - intros ->. destruct Hst; discriminate.
      - discriminate.
      - intros p ->.
        destruct Hw as [Hw|(b & H2 & W2 & -> & -> & Hre & Hw)]; [discriminate|].
        injection Hw as ->. split; [reflexivity|].
        exists score, mx, n, b, path, H2, W2. repeat split; assumption. }
    destruct best as [roi|].
    2:{ apply Hplain; [now left | intros b _ Hb; discriminate]. }
    destruct (String.eqb_spec status "flagged") as [->|Hne].
    2:{ apply Hplain; [now left | intros b Hs _; contradiction]. }
    destruct (export_crop env roi) as [p|e] eqn:Hex; cbn [bind].
    + assert (Hnr : ~ ((exists e, env_crop_name env = Raise e) \/
                       env_reread env = None \/
                       (exists e, env_write env = Raise e))).
      { intros Hr. apply (export_crop_raises_iff env roi) in Hr.
        destruct Hr as [e He]. congruence. }
      apply Hplain.
      * right. unfold export_crop in Hex.
        destruct (env_crop_name env); cbn [bind] in Hex; [|discriminate].
        destruct (env_reread env) as [[H2 W2]|]; [|discriminate].
        destruct (env_write env); cbn [bind] in Hex; [|discriminate].
        injection Hex as <-. exists roi, H2, W2. repeat split; reflexivity.
      * intros b _ Hb. injection Hb as <-. exact Hnr.
    + assert (Hr : (exists e, env_crop_name env = Raise e) \/
                   env_reread env = None \/
                   (exists e, env_write env = Raise e)).
      { apply (export_crop_raises_iff env roi). now exists e. }
      cbn. repeat split; try tauto; try (intros; discriminate); auto.
      intros _. right. right. right.
      exists score, mx, n, roi, path. split; [reflexivity | exact Hr].
  - cbn. repeat split; try tauto; try (intros; discriminate); auto.
    intros _. right. right. left. now exists e.
Qed.

(** A flagged image with a best region that cannot be read again: the
    row is an error row without scores and without a crop. *)
Lemma process_image_row_witness :
  row_status (process_image ex_env_export_fails 40 1 (1 # 2) (22 # 100) (4 # 10))
  = "error" /\
  row_trufor_score (process_image ex_env_export_fails 40 1 (1 # 2) (22 # 100) (4 # 10))
  = None /\
  row_crop (process_image ex_env_export_fails 40 1 (1 # 2) (22 # 100) (4 # 10)) = None.
Proof.
  destruct (process_image_row ex_env_export_fails 40 1 (1 # 2) (22 # 100) (4 # 10))
    as (_ & Hiff & Herr & _).
  assert (Hs : row_status (process_image ex_env_export_fails 40 1 (1 # 2)
                             (22 # 100) (4 # 10)) = "error").
  { apply Hiff. right. right. right.
    exists (5 # 16), (3940000 # 3940000), 3%nat, (mkBox 1 0 1 1 "7h" 90),
      "out/a.png.npz".
    split; [vm_compute; reflexivity | right; left; reflexivity]. }
  destruct (Herr Hs) as (Ht & _ & _ & _ & Hc).
  split; [exact Hs | split; [exact Ht | exact Hc]].
Defined.

(** ** Tokens the extractor drops, and what every region satisfies *)

Lemma token_step_dropped (min_conf : Q) (min_size : Z) (lines : lines_dict) (t : Token) :
  kept min_conf min_size t = false -> token_step min_conf min_size lines t = lines.
Proof.
  unfold kept, token_step. intros Hk.
  destruct (strip (tok_text t) =? "")%string; [reflexivity|].
  destruct (Qltb (conf_of t) min_conf); [reflexivity|].
  destruct ((tok_width t <? min_size)%Z || (tok_height t <? min_size)%Z);
    [reflexivity | discriminate].
Qed.

(** Tokens with empty text, low confidence or a small box have no
    influence on the result: removing them from the OCR output gives the
    same regions. *)
Theorem ocr_line_boxes_ignores_dropped_tokens (tokens : list Token)
  (min_conf : Q) (min_size : Z) :
  ocr_line_boxes (filter (kept min_conf min_size) tokens) min_conf min_size
  = ocr_line_boxes tokens min_conf min_size.
Proof.
  unfold ocr_line_boxes. f_equal. generalize (@nil (line_key * Line)).
  induction tokens as [|t ts IH]; intros lines; [reflexivity|].
  cbn [filter fold_left].
  destruct (kept min_conf min_size t) eqn:Hk.
  - cbn [fold_left]. apply IH.
  - rewrite (token_step_dropped _ _ _ _ Hk). apply IH.
Qed.







(** ** One line per line identity *)

Lemma key_eqb_eq (a b : line_key) : key_eqb a b = true <-> a = b.
Proof.
  destruct a as [[a1 a2] a3], b as [[b1 b2] b3]. cbn.
  rewrite !andb_true_iff, !Z.eqb_eq. split.
  - intros [[-> ->] ->]. reflexivity.
  - intros [= -> -> ->]. auto.
Qed.

Lemma add_to_lines_keys (key : line_key) (x y w h : Z) (txt : string) (conf : Q)
  (lines : lines_dict) :
  (In key (map fst lines) /\
   map fst (add_to_lines key x y w h txt conf lines) = map fst lines) \/
  (~ In key (map fst lines) /\
   map fst (add_to_lines key x y w h txt conf lines) = (map fst lines ++ [key])%list).
Proof.
  induction lines as [|[k d] rest IH]; cbn [add_to_lines map fst].
  - right. split; [intros [] | reflexivity].
  - destruct (key_eqb k key) eqn:E.
    + apply key_eqb_eq in E. left. split; [now left | reflexivity].
    + assert (Hne : k <> key) by (intros Heq; apply key_eqb_eq in Heq; congruence).
      cbn [map fst]. destruct IH as [[Hin ->]|[Hnin ->]].
      * left. split; [now right | reflexivity].
      * right. split; [intros [Heq|Hin]; [congruence | contradiction] | reflexivity].
Qed.

Lemma fold_lines_keys (min_conf : Q) (min_size : Z) (tokens : list Token) :
  forall lines,
    NoDup (map fst lines) ->
    let lines' := fold_left (token_step min_conf min_size) tokens lines in
    NoDup (map fst lines') /\
    (forall k, In k (map fst lines') <->
               In k (map fst lines) \/
               exists t, In t tokens /\ kept min_conf min_size t = true /\
                         token_key t = k) /\
    (List.length lines' <= List.length lines
                           + List.length (filter (kept min_conf min_size) tokens))%nat.
Proof.
  induction tokens as [|t ts IH]; intros lines Hnd; cbv zeta.
  - cbn. split; [exact Hnd|]. split; [|lia].
    intros k. split; [now left | intros [Hk|(t & [] & _)]; exact Hk].
  - cbn [fold_left filter].
    destruct (kept min_conf min_size t) eqn:Hk.
    + rewrite token_step_kept by exact Hk.
      destruct (add_to_lines_keys (token_key t) (tok_left t) (tok_top t)
                  (tok_width t) (tok_height t) (strip (tok_text t)) (conf_of t) lines)
        as [[Hin Hkeys]|[Hnin Hkeys]].
      * destruct (IH _ ltac:(rewrite Hkeys; exact Hnd)) as (Hnd' & Hin' & Hlen).
        split; [exact Hnd'|]. split.
        -- intros k. rewrite Hin', Hkeys. split.
           ++ intros [Hl|(u & Hu & Hku & Hkey)]; [now left|].
              right. exists u. repeat split; [now right | exact Hku | exact Hkey].
           ++ intros [Hl|(u & [<-|Hu] & Hku & Hkey)]; [now left | |].
              ** left. now rewrite <- Hkey.
              ** right. now exists u.
        -- assert (Hl : List.length (add_to_lines (token_key t) (tok_left t) (tok_top t)
                          (tok_width t) (tok_height t) (strip (tok_text t))
                          (conf_of t) lines) = List.length lines).
           { rewrite <- (length_map fst), Hkeys, length_map. reflexivity. }
           cbn [List.length]. lia.
      * assert (Hnd1 : NoDup (map fst lines ++ [token_key t])%list).
        { apply NoDup_app; [exact Hnd | constructor; [intros [] | constructor] |].
          intros k Hk1 [<-|[]]. contradiction. }
        destruct (IH _ ltac:(rewrite Hkeys; exact Hnd1)) as (Hnd' & Hin' & Hlen).
        split; [exact Hnd'|]. split.
        -- intros k. rewrite Hin', Hkeys, in_app_iff. cbn [In]. split.
           ++ intros [[Hl|[<-|[]]]|(u & Hu & Hku & Hkey)].
              ** now left.
              ** right. exists t. repeat split; [now left | exact Hk].
              ** right. exists u. repeat split; [now right | exact Hku | exact Hkey].
           ++ intros [Hl|(u & [<-|Hu] & Hku & Hkey)].
              ** left. now left.
              ** left. right. now left.
              ** right. now exists u.
        -- assert (Hl : List.length (add_to_lines (token_key t) (tok_left t) (tok_top t)
                          (tok_width t) (tok_height t) (strip (tok_text t))
                          (conf_of t) lines) = S (List.length lines)).
           { rewrite <- (length_map fst), Hkeys, length_app, length_map. cbn. lia. }
           cbn [List.length]. lia.
    + rewrite token_step_dropped by exact Hk.
      destruct (IH _ Hnd) as (Hnd' & Hin' & Hlen).
      split; [exact Hnd'|]. split; [|exact Hlen].
      intros k. rewrite Hin'. split.
      * intros [Hl|(u & Hu & Hku & Hkey)]; [now left|].
        right. exists u. repeat split; [now right | exact Hku | exact Hkey].
      * intros [Hl|(u & [<-|Hu] & Hku & Hkey)]; [now left | congruence |].
        right. now exists u.
Qed.

Lemma length_boxes_of_lines (min_size : Z) (lines : lines_dict) :
  (List.length (boxes_of_lines min_size lines) <= List.length lines)%nat.
Proof.
  induction lines as [|[k d] rest IH]; cbn; [lia|].
  destruct (line_box min_size d); cbn; lia.
Qed.

(** The dictionary of lines holds each line identity once, exactly the
    identities of the kept tokens; so there is at most one region per
    line identity, and never more regions than kept tokens. *)
Theorem ocr_one_region_per_line (tokens : list Token) (min_conf : Q) (min_size : Z) :
  let lines := fold_left (token_step min_conf min_size) tokens [] in
  NoDup (map fst lines) /\
  (forall k, In k (map fst lines) <->
             exists t, In t tokens /\ kept min_conf min_size t = true /\
                       token_key t = k) /\
  (List.length (ocr_line_boxes tokens min_conf min_size) <= List.length lines)%nat /\
  (List.length lines <= List.length (filter (kept min_conf min_size) tokens))%nat.
Proof.
  cbv zeta.
  destruct (fold_lines_keys min_conf min_size tokens [] (NoDup_nil _))
    as (Hnd & Hin & Hlen).
  split; [exact Hnd|]. split; [|split].
  - intros k. rewrite Hin. cbn. tauto.
  - apply length_boxes_of_lines.
  - exact Hlen.
Qed.

(** ** The region of a single line: tight union and mean confidence *)

Lemma merge_tokens_conf (d : Line) (ts : list Token) :
  ln_conf_n (merge_tokens d ts) = ln_conf_n d + Z.of_nat (List.length ts) /\
  (ln_conf_sum (merge_tokens d ts) == ln_conf_sum d + qsum (map conf_of ts))%Q.
Proof.
  revert d. induction ts as [|t ts IH]; intros d.
  - cbn. split; [lia | ring].
  - cbn [merge_tokens fold_left].
    destruct (IH (merge_line d (tok_left t) (tok_top t) (tok_width t)
                             (tok_height t) (strip (tok_text t)) (conf_of t)))
      as [Hn Hs].
    unfold merge_tokens in *.
    cbn [merge_line ln_conf_n ln_conf_sum] in Hn, Hs.
    split.
    + rewrite Hn. cbn [List.length]. lia.
    + rewrite Hs. cbn [map]. unfold qsum. cbn [fold_right]. ring.
Qed.

Lemma merge_tokens_tight (d : Line) (ts : list Token) :
  (ln_x1 (merge_tokens d ts) = ln_x1 d \/
   exists t, In t ts /\ ln_x1 (merge_tokens d ts) = tok_left t) /\
  (ln_y1 (merge_tokens d ts) = ln_y1 d \/
   exists t, In t ts /\ ln_y1 (merge_tokens d ts) = tok_top t) /\
  (ln_x2 (merge_tokens d ts) = ln_x2 d \/
   exists t, In t ts /\ ln_x2 (merge_tokens d ts) = tok_left t + tok_width t) /\
  (ln_y2 (merge_tokens d ts) = ln_y2 d \/
   exists t, In t ts /\ ln_y2 (merge_tokens d ts) = tok_top t + tok_height t).
Proof.
  revert d. induction ts as [|t ts IH]; intros d.
  - cbn. repeat split; now left.
  - cbn [merge_tokens fold_left].
    destruct (IH (merge_line d (tok_left t) (tok_top t) (tok_width t)
                             (tok_height t) (strip (tok_text t)) (conf_of t)))
      as (Hx1 & Hy1 & Hx2 & Hy2).
    unfold merge_tokens in *.
    cbn [merge_line ln_x1 ln_x2 ln_y1 ln_y2] in Hx1, Hy1, Hx2, Hy2.
    repeat split.
    + destruct Hx1 as [->|(u & Hu & ->)]; [|right; exists u; split; [now right|reflexivity]].
      destruct (Z.min_spec (ln_x1 d) (tok_left t)) as [[_ ->]|[_ ->]];
        [now left | right; exists t; split; [now left | reflexivity]].
    + destruct Hy1 as [->|(u & Hu & ->)]; [|right; exists u; split; [now right|reflexivity]].
      destruct (Z.min_spec (ln_y1 d) (tok_top t)) as [[_ ->]|[_ ->]];
        [now left | right; exists t; split; [now left | reflexivity]].
    + destruct Hx2 as [->|(u & Hu & ->)]; [|right; exists u; split; [now right|reflexivity]].
      destruct (Z.max_spec (ln_x2 d) (tok_left t + tok_width t)) as [[_ ->]|[_ ->]];
        [right; exists t; split; [now left | reflexivity] | now left].
    + destruct Hy2 as [->|(u & Hu & ->)]; [|right; exists u; split; [now right|reflexivity]].
      destruct (Z.max_spec (ln_y2 d) (tok_top t + tok_height t)) as [[_ ->]|[_ ->]];
        [right; exists t; split; [now left | reflexivity] | now left].
Qed.

Lemma single_line_box (min_conf : Q) (min_size : Z) (t0 : Token) (ts : list Token) :
  (forall t, In t (t0 :: ts) ->
     kept min_conf min_size t = true /\ token_key t = token_key t0) ->
  existsb (fun t => has_digit (strip (tok_text t))) (t0 :: ts) = true ->
  let d := merge_tokens (first_line t0) ts in
  ocr_line_boxes (t0 :: ts) min_conf min_size
  = [mkBox (ln_x1 d) (ln_y1 d) (ln_x2 d - ln_x1 d) (ln_y2 d - ln_y1 d)
           (String.concat " " (ln_words d))
           (ln_conf_sum d / inject_Z (Z.max 1 (ln_conf_n d)))%Q].
Proof.
  intros Hall Hdig d.
  destruct (Hall t0 (or_introl eq_refl)) as [Hk0 _].
  assert (Hfold : fold_left (token_step min_conf min_size) (t0 :: ts) []
                  = [(token_key t0, d)]).
  { cbn [fold_left]. rewrite token_step_kept by exact Hk0. cbn [add_to_lines].
    apply fold_single_line. intros t Ht. apply Hall. now right. }
  assert (Hwords : ln_words d = map (fun t => strip (tok_text t)) (t0 :: ts)).
  { unfold d. rewrite merge_tokens_words. reflexivity. }
  assert (Hclean : clean (String.concat " " (ln_words d))).
  { rewrite Hwords. apply concat_clean; [discriminate|].
    apply Forall_map, Forall_forall. intros t Ht.
    destruct (Hall t Ht) as [Hk _]. now apply kept_inv in Hk. }
  destruct (merge_tokens_bounds (first_line t0) ts) as [Hb _]. fold d in Hb.
  cbn [first_line ln_x1 ln_x2 ln_y1 ln_y2] in Hb.
  destruct (kept_inv _ _ _ Hk0) as (_ & _ & Hw0 & Hh0).
  unfold ocr_line_boxes. rewrite Hfold. cbn [boxes_of_lines].
  unfold line_box. rewrite (strip_of_clean _ Hclean).
  rewrite Hwords at 1. rewrite has_digit_concat, existsb_map_strip, Hdig.
  cbn [negb].
  destruct (Z.ltb_spec (ln_x2 d - ln_x1 d) min_size); [lia|].
  destruct (Z.ltb_spec (ln_y2 d - ln_y1 d) min_size); [lia|].
  reflexivity.
Qed.

(** The region of a single line of kept tokens is the tight union of
    the token boxes (each side is reached by some token and no token
    sticks out) and its confidence is the arithmetic mean of the token
    confidences. *)
Theorem ocr_single_line_union_and_mean (min_conf : Q) (min_size : Z)
  (t0 : Token) (ts : list Token) :
  (forall t, In t (t0 :: ts) ->
     kept min_conf min_size t = true /\ token_key t = token_key t0) ->
  existsb (fun t => has_digit (strip (tok_text t))) (t0 :: ts) = true ->
  exists b,
    ocr_line_boxes (t0 :: ts) min_conf min_size = [b] /\
    (exists t, In t (t0 :: ts) /\ box_x b = tok_left t) /\
    (exists t, In t (t0 :: ts) /\ box_y b = tok_top t) /\
    (exists t, In t (t0 :: ts) /\ box_x b + box_w b = tok_left t + tok_width t) /\
    (exists t, In t (t0 :: ts) /\ box_y b + box_h b = tok_top t + tok_height t) /\
    (forall t, In t (t0 :: ts) ->
       box_x b <= tok_left t /\ tok_left t + tok_width t <= box_x b + box_w b /\
       box_y b <= tok_top t /\ tok_top t + tok_height t <= box_y b + box_h b) /\
    (box_conf b == qsum (map conf_of (t0 :: ts)) / Qnat (List.length (t0 :: ts)))%Q.
Proof.
  intros Hall Hdig.
  pose proof (single_line_box min_conf min_size t0 ts Hall Hdig) as Hbox.
  cbv zeta in Hbox. set (d := merge_tokens (first_line t0) ts) in *.
  eexists. split; [exact Hbox|].
  cbn [box_x box_y box_w box_h box_conf].
  destruct (merge_tokens_tight (first_line t0) ts) as (Hx1 & Hy1 & Hx2 & Hy2).
  destruct (merge_tokens_bounds (first_line t0) ts) as [Hb Hin].
  destruct (merge_tokens_conf (first_line t0) ts) as [Hn Hs].
  fold d in Hx1, Hy1, Hx2, Hy2, Hb, Hin, Hn, Hs.
  cbn [first_line ln_x1 ln_x2 ln_y1 ln_y2 ln_conf_n ln_conf_sum]
    in Hx1, Hy1, Hx2, Hy2, Hb, Hn, Hs.
  split; [|split; [|split; [|split; [|split]]]].
  - destruct Hx1 as [->|(u & Hu & ->)];
      [exists t0; split; [now left | reflexivity]
      |exists u; split; [now right | reflexivity]].
  - destruct Hy1 as [->|(u & Hu & ->)];
      [exists t0; split; [now left | reflexivity]
      |exists u; split; [now right | reflexivity]].
  - destruct Hx2 as [Hx|(u & Hu & Hx)];
      [exists t0; split; [now left | lia]
      |exists u; split; [now right | lia]].
  - destruct Hy2 as [Hy|(u & Hu & Hy)];
      [exists t0; split; [now left | lia]
      |exists u; split; [now right | lia]].
  - intros t [<-|Ht]; [lia | specialize (Hin t Ht); lia].
  - rewrite Hn, Hs. cbn [map List.length]. unfold qsum, Qnat. cbn [fold_right].
    replace (Z.max 1 (1 + Z.of_nat (List.length ts)))
      with (Z.of_nat (S (List.length ts))) by lia.
    reflexivity.
Qed.

Lemma ocr_single_line_union_and_mean_witness :
  exists b,
    ocr_line_boxes [mkToken "7h" (Some 95%Q) 10 10 20 20 1 1 1;
                    mkToken "35m" (Some 85%Q) 34 12 30 20 1 1 1] 40 18 = [b] /\
    (box_conf b == (95 + (85 + 0)) / 2)%Q.
Proof.
  destruct (ocr_single_line_union_and_mean 40 18
              (mkToken "7h" (Some 95%Q) 10 10 20 20 1 1 1)
              [mkToken "35m" (Some 85%Q) 34 12 30 20 1 1 1])
    as (b & Hb & _ & _ & _ & _ & _ & Hc).
  - intros t [<-|[<-|[]]]; split; reflexivity.
  - reflexivity.
  - exists b. split; [exact Hb | exact Hc].
Defined.

(** ** Normalization keeps the order of the values *)

Lemma clip01_mono (a b : Q) : (a <= b)%Q -> (clip01 a <= clip01 b)%Q.
Proof.
  intros Hab. unfold clip01, qmin, qmax.
  destruct (Qle_bool a 0) eqn:Ea, (Qle_bool b 0) eqn:Eb;
    try apply Qle_bool_iff in Ea; try apply Qle_bool_iff in Eb;
    try (assert (~ (a <= 0)%Q) by (intros Hc; apply Qle_bool_iff in Hc; congruence));
    try (assert (~ (b <= 0)%Q) by (intros Hc; apply Qle_bool_iff in Hc; congruence)).
  - cbn. apply Qle_refl.
  - change (Qle_bool 0 1) with true. cbv iota.
    destruct (Qle_bool b 1) eqn:E1; [|discriminate].
    apply Qnot_lt_le. intros Hlt. apply H. apply Qlt_le_weak. exact Hlt.
  - exfalso. apply H. eapply Qle_trans; eassumption.
  - destruct (Qle_bool a 1) eqn:Ea1, (Qle_bool b 1) eqn:Eb1;
      try apply Qle_bool_iff in Ea1; try apply Qle_bool_iff in Eb1.
    + exact Hab.
    + exact Ea1.
    + assert (~ (a <= 1)%Q) by (intros Hc; apply Qle_bool_iff in Hc; congruence).
      exfalso. apply H1. eapply Qle_trans; eassumption.
    + apply Qle_refl.
Qed.

(** [norm01] never reverses the order of two entries: an entry that is
    at most another before normalization is at most it afterwards. *)
Theorem norm01_monotone (m : ndarray) (i j : nat) :
  (i < List.length (data m))%nat -> (j < List.length (data m))%nat ->
  (nth i (data m) 0 <= nth j (data m) 0)%Q ->
  (nth i (data (norm01 m)) 0 <= nth j (data (norm01 m)) 0)%Q.
Proof.
  intros Hi Hj Hle.
  assert (Hmap : forall f : Q -> Q,
             (forall a b, (a <= b)%Q -> (f a <= f b)%Q) ->
             (nth i (map f (data m)) 0 <= nth j (map f (data m)) 0)%Q).
  { intros f Hf.
    rewrite (nth_indep (map f (data m)) 0%Q (f 0%Q)) by now rewrite length_map.
    rewrite (nth_indep (map f (data m)) 0%Q (f 0%Q) (n := j))
      by now rewrite length_map.
    rewrite !map_nth. now apply Hf. }
  unfold norm01.
  destruct (Qltb (percentile (data m) 99 - percentile (data m) 1) eps) eqn:E;
    cbn [data].
  - apply Hmap. exact clip01_mono.
  - apply Qltb_ge in E. apply Hmap. intros a b Hab. apply clip01_mono.
    assert (Hpos : (0 < percentile (data m) 99 - percentile (data m) 1)%Q).
    { eapply Qlt_le_trans; [|exact E]. reflexivity. }
    unfold Qdiv. apply Qmult_le_compat_r.
    + lra.
    + apply Qlt_le_weak, Qinv_lt_0_compat, Hpos.
Qed.

Lemma norm01_monotone_witness :
  (nth 0 (data (norm01 ex_map51)) 0 <= nth 1 (data (norm01 ex_map51)) 0)%Q.
Proof.
  apply (norm01_monotone ex_map51 0 1); cbn; try lia. discriminate.
Defined.

(** ** Thresholds *)

(** The two flag thresholds act on the status only: with other
    thresholds the analysis returns the same scores, region count, best
    region and bundle path, and an image that is flagged stays flagged
    when both thresholds are lowered. *)
Theorem thresholds_only_change_status (env : Env) (min_conf : Q) (min_size : Z)
  (global_thresh roi_thresh global_thresh' roi_thresh' rel_min : Q)
  (status : string) (score mx : Q) (n : nat) (best : option Box) (path : string) :
  analyze_image env min_conf min_size global_thresh roi_thresh rel_min
  = Ok (Analysed status score mx n best path) ->
  exists status',
    analyze_image env min_conf min_size global_thresh' roi_thresh' rel_min
    = Ok (Analysed status' score mx n best path) /\
    ((global_thresh' <= global_thresh)%Q -> (roi_thresh' <= roi_thresh)%Q ->
     status = "flagged" -> status' = "flagged").
Proof.
  unfold analyze_image.
  destruct (env_imread env) as [[H W]|]; [|discriminate].
  destruct (env_trufor env) as [p|]; [|discriminate]. cbn [bind].
  destruct (load_trufor_outputs p (env_npz env) H W) as [outs|]; [|discriminate].
  cbn [bind].
  destruct (env_ocr env) as [tokens|]; [|discriminate]. cbn [bind].
  destruct (score_rois _ _ _ _ _ _) as [[mx' best']|]; [|discriminate].
  cbn [bind]. intros [= <- <- <- <- <- <-].
  eexists. split; [reflexivity|].
  intros Hg Hr Hst.
  destruct (flagged (out_score outs) mx' global_thresh roi_thresh) eqn:Ef;
    [|discriminate].
  apply flagged_iff in Ef.
  assert (Hf : flagged (out_score outs) mx' global_thresh' roi_thresh' = true).
  { apply flagged_iff. destruct Ef as [Hs|Hm];
      [left | right]; eapply Qle_trans; eassumption. }
  now rewrite Hf.
Qed.

Lemma thresholds_only_change_status_witness :
  exists status',
    analyze_image ex_env 40 1 (4 # 10) (2 # 10) (4 # 10)
    = Ok (Analysed status' (5 # 16) (3940000 # 3940000) 3
            (Some (mkBox 1 0 1 1 "7h" 90)) "out/a.png.npz").
Proof.
  destruct (thresholds_only_change_status ex_env 40 1 (1 # 2) (22 # 100)
              (4 # 10) (2 # 10) (4 # 10) "flagged" (5 # 16) (3940000 # 3940000) 3
              (Some (mkBox 1 0 1 1 "7h" 90)) "out/a.png.npz"
              ltac:(vm_compute; reflexivity)) as (st & Ha & _).
  exists st. exact Ha.
Defined.

(** ** Regions that are reliable everywhere, or nowhere *)







(** ** Which channel a three-dimensional entry gives *)

Lemma nth_stride (n c : nat) (l : list Q) (k : nat) (d : Q) :
  (k < n)%nat -> nth k (stride n c l) d = nth (k * c) l d.
Proof.
  revert l k. induction n as [|n IH]; intros l k Hk; [lia|].
  cbn [stride]. destruct l as [|v l'].
  - transitivity d; [now destruct k | now destruct (k * c)%nat].
  - destruct k as [|k']; [reflexivity|].
    change (nth k' (stride n c (skipn c (v :: l'))) d
            = nth (S k' * c) (v :: l') d).
    rewrite IH by lia. rewrite nth_skipn. reflexivity.
Qed.

(** The map a candidate entry gives, pixel by pixel: a two-dimensional
    entry is taken as it is; a channel-first entry (C, H, W) gives its
    last channel; a channel-last entry (H, W, C) gives its channel 0. *)
Theorem map_candidate_pixels (H W : nat) (arr a : ndarray) (i j : nat) :
  wf_array arr ->
  map_candidate H W arr = Ok (Some a) ->
  (i < H)%nat -> (j < W)%nat ->
  pixel a W i j
  = match shape arr with
    | [d0; d1; d2] =>
        if (d1 =? H)%nat && (d2 =? W)%nat
        then nth ((d0 - 1) * (H * W) + (i * W + j)) (data arr) 0%Q
        else nth ((i * W + j) * d2) (data arr) 0%Q
    | _ => nth (i * W + j) (data arr) 0%Q
    end.
Proof.
  destruct arr as [sh dt]. unfold wf_array, size, map_candidate, index_first,
    index_last, channel0, pixel. cbn [shape data].
  intros Hwf Hm Hi Hj.
  assert (Hij : (i * W + j < H * W)%nat) by nia.
  destruct sh as [|d0 [|d1 [|d2 [|d3 sh]]]]; try discriminate.
  - destruct (_ && _); [|discriminate]. injection Hm as <-. reflexivity.
  - cbn in Hwf.
    destruct ((d1 =? H)%nat && (d2 =? W)%nat) eqn:E.
    + apply andb_true_iff in E as [E1 E2]. apply Nat.eqb_eq in E1, E2. subst d1 d2.
      destruct (Nat.eqb_spec d0 0); [destruct (d0 =? 1)%nat; discriminate|].
      destruct (Nat.eqb_spec d0 1) as [->|Hne]; cbn [bind] in Hm;
        injection Hm as <-; cbn [data fold_right].
      * rewrite nth_firstn.
        destruct (Nat.ltb_spec (i * W + j) (H * (W * 1))); [|nia].
        f_equal.
      * rewrite nth_firstn.
        destruct (Nat.ltb_spec (i * W + j) (H * (W * 1))); [|nia].
        rewrite nth_skipn. f_equal. nia.
    + destruct ((d0 =? H)%nat && (d1 =? W)%nat) eqn:E'; [|discriminate].
      apply andb_true_iff in E' as [E0 E1]. apply Nat.eqb_eq in E0, E1. subst d0 d1.
      destruct (d2 =? 0)%nat; [discriminate|].
      cbn [bind] in Hm. injection Hm as <-. cbn [data].
      apply nth_stride. exact Hij.
Qed.

(** A 2-channel, channel-first entry of a 1 by 2 image: the second
    channel is the map. *)
Lemma map_candidate_pixels_witness :
  pixel (mkArr [1; 2]%nat [7 # 10; 9 # 10]) 2 0 1 = 9 # 10.
Proof.
  apply (map_candidate_pixels 1 2
           (mkArr [2; 1; 2]%nat [1 # 10; 2 # 10; 7 # 10; 9 # 10])
           (mkArr [1; 2]%nat [7 # 10; 9 # 10]) 0 1);
    try reflexivity; lia.
Defined.

(** ** Region extraction, line by line (claim C7) *)

Lemma key_in_iff (k : line_key) (l : list line_key) :
  key_in k l = true <-> In k l.
Proof.
  unfold key_in. rewrite existsb_exists. split.
  - intros (k' & Hin & He). apply key_eqb_eq in He. now subst.
  - intros Hin. exists k. split; [exact Hin | apply key_eqb_refl].
Qed.

Lemma filter_filter_ext {A : Type} (p q r : A -> bool) (l : list A) :
  (forall x, p x && q x = r x) -> filter p (filter q l) = filter r l.
Proof.
  intros Hpq. induction l as [|x l IH]; [reflexivity|].
  cbn [filter]. rewrite <- (Hpq x).
  destruct (q x); cbn [filter]; rewrite IH, ?andb_true_r, ?andb_false_r;
    reflexivity.
Qed.

Lemma filter_all {A : Type} (p : A -> bool) (l : list A) :
  (forall x, p x = true) -> filter p l = l.
Proof.
  intros Hp. induction l as [|x l IH]; [reflexivity|].
  cbn. now rewrite Hp, IH.
Qed.

(** Where [add_to_lines] leaves an entry of the dictionary. *)
Lemma add_to_lines_in (key : line_key) (x y w h : Z) (txt : string) (conf : Q)
  (lines : lines_dict) (K : line_key) (d : Line) :
  NoDup (map fst lines) ->
  In (K, d) (add_to_lines key x y w h txt conf lines) ->
  (K <> key /\ In (K, d) lines) \/
  (K = key /\ exists d0, In (K, d0) lines /\ d = merge_line d0 x y w h txt conf) \/
  (K = key /\ ~ In key (map fst lines) /\
   d = mkLine x y (x + w) (y + h) [txt] conf 1).
Proof.
  induction lines as [|[k d'] rest IH]; cbn [add_to_lines map fst]; intros Hnd Hin.
  - destruct Hin as [[= <- <-]|[]]. right. right.
    split; [reflexivity|]. split; [intros [] | reflexivity].
  - inversion Hnd as [|? ? Hk Hnd']; subst.
    destruct (key_eqb k key) eqn:E.
    + apply key_eqb_eq in E. subst k.
      destruct Hin as [[= <- <-]|Hin].
      * right. left. split; [reflexivity|]. exists d'. split; [now left | reflexivity].
      * left. split; [|now right].
        intros ->. apply Hk. apply (in_map fst) in Hin. exact Hin.
    + assert (Hne : k <> key) by (intros Heq; apply key_eqb_eq in Heq; congruence).
      destruct Hin as [[= <- <-]|Hin].
      * left. split; [exact Hne | now left].
      * destruct (IH Hnd' Hin) as [[Hk' Hi]|[(-> & d0 & Hi & Hd)|(-> & Hni & Hd)]].
        -- left. split; [exact Hk' | now right].
        -- right. left. split; [reflexivity|]. exists d0. split; [now right | exact Hd].
        -- right. right. split; [reflexivity|]. split; [|exact Hd].
           intros [Heq|Hi]; [congruence | contradiction].
Qed.

Lemma line_tokens_cons (min_conf : Q) (min_size : Z) (K : line_key)
  (t : Token) (ts : list Token) :
  line_tokens min_conf min_size K (t :: ts)
  = if kept min_conf min_size t && key_eqb K (token_key t)
    then t :: line_tokens min_conf min_size K ts
    else line_tokens min_conf min_size K ts.
Proof. reflexivity. Qed.

(** Every value of the dictionary the token loop builds is the merge of
    the kept tokens of its own key, and of no other token. *)
Lemma fold_lines_values (min_conf : Q) (min_size : Z) (tokens : list Token) :
  forall (lines : lines_dict) (K : line_key) (d : Line),
    NoDup (map fst lines) ->
    In (K, d) (fold_left (token_step min_conf min_size) tokens lines) ->
    (exists d0, In (K, d0) lines /\
                d = merge_tokens d0 (line_tokens min_conf min_size K tokens)) \/
    (~ In K (map fst lines) /\
     exists t0 rest,
       line_tokens min_conf min_size K tokens = t0 :: rest /\
       d = merge_tokens (first_line t0) rest).
Proof.
  induction tokens as [|t ts IH]; intros lines K d Hnd Hin.
  - left. exists d. split; [exact Hin | reflexivity].
  - cbn [fold_left] in Hin. rewrite line_tokens_cons.
    destruct (kept min_conf min_size t) eqn:Hk; cbn [andb].
    2:{ rewrite token_step_dropped in Hin by exact Hk. now apply IH. }
    rewrite token_step_kept in Hin by exact Hk.
    pose proof (add_to_lines_keys (token_key t) (tok_left t) (tok_top t)
                  (tok_width t) (tok_height t) (strip (tok_text t)) (conf_of t)
                  lines) as Hkeys.
    assert (Hnd' : NoDup (map fst (add_to_lines (token_key t) (tok_left t)
                     (tok_top t) (tok_width t) (tok_height t)
                     (strip (tok_text t)) (conf_of t) lines))).
    { destruct Hkeys as [[_ ->]|[Hni ->]]; [exact Hnd|].
      apply NoDup_app; [exact Hnd | constructor; [intros [] | constructor] |].
      intros k Hk1 [<-|[]]. contradiction. }
    destruct (IH _ K d Hnd' Hin) as [(d1 & Hi1 & Hd)|(Hni & t0 & rest & Hl & Hd)].
    + destruct (add_to_lines_in _ _ _ _ _ _ _ _ _ _ Hnd Hi1)
        as [[Hne Hi]|[(-> & d0 & Hi & Hd1)|(-> & Hnew & Hd1)]].
      * assert (E : key_eqb K (token_key t) = false).
        { destruct (key_eqb K (token_key t)) eqn:E; [|reflexivity].
          apply key_eqb_eq in E. contradiction. }
        rewrite E. left. exists d1. split; assumption.
      * rewrite key_eqb_refl. left. exists d0. split; [exact Hi|].
        rewrite Hd, Hd1. reflexivity.
      * rewrite key_eqb_refl. right. split; [exact Hnew|].
        exists t, (line_tokens min_conf min_size (token_key t) ts).
        split; [reflexivity|]. rewrite Hd, Hd1. reflexivity.
    + assert (Hsub : ~ In K (map fst lines) /\ K <> token_key t).
      { destruct Hkeys as [[Hi He]|[Hi He]]; rewrite He in Hni.
        - split; [exact Hni|]. intros ->. contradiction.
        - rewrite in_app_iff in Hni. split; [tauto|].
          intros ->. apply Hni. right. now left. }
      destruct Hsub as [HniL Hne].
      assert (E : key_eqb K (token_key t) = false).
      { destruct (key_eqb K (token_key t)) eqn:E; [|reflexivity].
        apply key_eqb_eq in E. contradiction. }
      rewrite E. right. split; [exact HniL|]. now exists t0, rest.
Qed.

(** The keys of the dictionary, in its order: the keys it had, then the
    new line identities of the kept tokens in order of first
    occurrence. *)
Lemma fold_lines_order (min_conf : Q) (min_size : Z) (tokens : list Token) :
  forall lines : lines_dict,
    map fst (fold_left (token_step min_conf min_size) tokens lines)
    = (map fst lines
       ++ filter (fun k => negb (key_in k (map fst lines)))
                 (first_keys (filter (kept min_conf min_size) tokens)))%list.
Proof.
  induction tokens as [|t ts IH]; intros lines.
  - cbn. now rewrite app_nil_r.
  - cbn [fold_left filter].
    destruct (kept min_conf min_size t) eqn:Hk.
    2:{ rewrite token_step_dropped by exact Hk. apply IH. }
    rewrite token_step_kept by exact Hk. rewrite IH. cbn [first_keys filter].
    destruct (add_to_lines_keys (token_key t) (tok_left t) (tok_top t)
                (tok_width t) (tok_height t) (strip (tok_text t)) (conf_of t)
                lines) as [[Hi ->]|[Hni ->]].
    + assert (E : key_in (token_key t) (map fst lines) = true)
        by now apply key_in_iff.
      rewrite E. cbn [negb]. f_equal. symmetry. apply filter_filter_ext.
      intros k. destruct (key_eqb k (token_key t)) eqn:Ek; cbn [negb].
      * apply key_eqb_eq in Ek. subst k. now rewrite E.
      * apply andb_true_r.
    + assert (E : key_in (token_key t) (map fst lines) = false).
      { destruct (key_in (token_key t) (map fst lines)) eqn:E; [|reflexivity].
        apply key_in_iff in E. contradiction. }
      rewrite E. cbn [negb]. rewrite <- app_assoc. cbn [app]. do 2 f_equal.
      symmetry. apply filter_filter_ext.
      intros k. unfold key_in. rewrite existsb_app. cbn [existsb].
      now rewrite orb_false_r, negb_orb.
Qed.

Lemma boxes_of_lines_flat_map (min_size : Z) (g : line_key -> option Box)
  (lines : lines_dict) :
  (forall K d, In (K, d) lines -> line_box min_size d = g K) ->
  boxes_of_lines min_size lines
  = flat_map (fun K => match g K with Some b => [b] | None => [] end)
             (map fst lines).
Proof.
  induction lines as [|[k d] rest IH]; intros Hg; [reflexivity|].
  cbn [boxes_of_lines map fst flat_map].
  rewrite (Hg k d (or_introl eq_refl)), IH by (intros; apply Hg; now right).
  destruct (g k); reflexivity.
Qed.

(** The region of a line of kept tokens: none without a digit, and
    otherwise the union box with the joined text. *)
Lemma line_region_kept (min_conf : Q) (min_size : Z) (t0 : Token) (ts : list Token) :
  (forall t, In t (t0 :: ts) -> kept min_conf min_size t = true) ->
  let d := merge_tokens (first_line t0) ts in
  line_region min_size (t0 :: ts)
  = if has_digit (joined_text (t0 :: ts))
    then Some (mkBox (ln_x1 d) (ln_y1 d) (ln_x2 d - ln_x1 d) (ln_y2 d - ln_y1 d)
                     (joined_text (t0 :: ts))
                     (ln_conf_sum d / inject_Z (Z.max 1 (ln_conf_n d)))%Q)
    else None.
Proof.
  intros Hall d. cbn [line_region]. fold d.
  assert (Hwords : ln_words d = map (fun t => strip (tok_text t)) (t0 :: ts)).
  { unfold d. rewrite merge_tokens_words. reflexivity. }
  assert (Hclean : clean (String.concat " " (ln_words d))).
  { rewrite Hwords. apply concat_clean; [discriminate|].
    apply Forall_map, Forall_forall. intros t Ht.
    pose proof (Hall t Ht) as Hk. now apply kept_inv in Hk. }
  destruct (merge_tokens_bounds (first_line t0) ts) as [Hb _]. fold d in Hb.
  cbn [first_line ln_x1 ln_x2 ln_y1 ln_y2] in Hb.
  destruct (kept_inv _ _ _ (Hall t0 (or_introl eq_refl))) as (_ & _ & Hw0 & Hh0).
  unfold line_box, joined_text. rewrite (strip_of_clean _ Hclean), Hwords.
  destruct (has_digit _); cbn [negb]; [|reflexivity].
  destruct (Z.ltb_spec (ln_x2 d - ln_x1 d) min_size); [lia|].
  destruct (Z.ltb_spec (ln_y2 d - ln_y1 d) min_size); [lia|].
  reflexivity.
Qed.

Lemma line_tokens_kept (min_conf : Q) (min_size : Z) (K : line_key)
  (tokens : list Token) (t : Token) :
  In t (line_tokens min_conf min_size K tokens) ->
  In t tokens /\ kept min_conf min_size t = true /\ token_key t = K.
Proof.
  unfold line_tokens. rewrite filter_In, andb_true_iff, key_eqb_eq.
  intros (Hin & Hk & He). auto.
Qed.


(** C7, as stated, fails: two digit-bearing tokens of one line that pass
    the confidence filter, each 17 by 17 pixels, give no region under
    the default minimum size of 18, because the token loop drops every
    token narrower or lower than [min_size] before lines are formed.
    The line of the two tokens would pass both tests of the second
    loop: its text has a digit and its box is 37 by 19. *)
Lemma small_digit_tokens_give_no_region :
  Qltb 95 40 = false /\
  has_digit "7h" = true /\ has_digit "35m" = true /\
  ocr_line_boxes [mkToken "7h" (Some 95%Q) 10 10 17 17 1 1 1;
                  mkToken "35m" (Some 95%Q) 30 12 17 17 1 1 1] 40 18 = [] /\
  exists b,
    line_box 18 (merge_tokens (first_line (mkToken "7h" (Some 95%Q) 10 10 17 17 1 1 1))
                              [mkToken "35m" (Some 95%Q) 30 12 17 17 1 1 1])
    = Some b /\
    box_text b = "7h 35m" /\ box_w b = 37 /\ box_h b = 19.
Proof.
  repeat split; try (vm_compute; reflexivity).
  eexists. split; [vm_compute; reflexivity|].
  repeat split; reflexivity.
Qed.

(** C7 (amended).  For every list of OCR tokens the regions are those
    of the lines, one line after the other in the order in which the
    lines first get a kept token, where a token is kept when its
    stripped text is not empty, its confidence is at least [min_conf]
    and it is at least [min_size] wide and high; and the region of a
    line is read from the kept tokens of that line alone.  A line whose
    merged text has no digit gives no region, so a list in which no line
    has a digit gives none at all.  A line with a kept token and a digit
    in its merged text gives one region, whose text is the stripped
    texts of its kept tokens joined by single spaces in encounter order
    and whose box contains the box of each of them.  In particular the
    kept tokens of a single line, one of them bearing a digit, give
    exactly one region. *)
Theorem ocr_line_boxes_digit_lines (min_conf : Q) (min_size : Z)
  (tokens : list Token) :
  let line := fun K => line_tokens min_conf min_size K tokens in
  ocr_line_boxes tokens min_conf min_size
  = regions_of_lines min_conf min_size tokens
      (first_keys (filter (kept min_conf min_size) tokens)) /\
  (forall K, has_digit (joined_text (line K)) = false ->
     line_region min_size (line K) = None) /\
  ((forall K, has_digit (joined_text (line K)) = false) ->
   ocr_line_boxes tokens min_conf min_size = []) /\
  (forall K, line K <> [] -> has_digit (joined_text (line K)) = true ->
     exists b,
       line_region min_size (line K) = Some b /\
       box_text b = joined_text (line K) /\
       forall t, In t (line K) ->
         box_x b <= tok_left t /\ tok_left t + tok_width t <= box_x b + box_w b /\
         box_y b <= tok_top t /\ tok_top t + tok_height t <= box_y b + box_h b) /\
  (forall t0 ts, tokens = t0 :: ts ->
     (forall t, In t tokens ->
        kept min_conf min_size t = true /\ token_key t = token_key t0) ->
     has_digit (joined_text tokens) = true ->
     exists b,
       ocr_line_boxes tokens min_conf min_size = [b] /\
       box_text b = joined_text tokens).
Proof.
  cbv zeta.
  assert (Hnone : forall K,
             has_digit (joined_text (line_tokens min_conf min_size K tokens)) = false ->
             line_region min_size (line_tokens min_conf min_size K tokens) = None).
  { intros K Hd.
    destruct (line_tokens min_conf min_size K tokens) as [|t0 rest] eqn:El;
      [reflexivity|].
    rewrite (line_region_kept min_conf), Hd; [reflexivity|].
    intros t Ht. rewrite <- El in Ht. now apply line_tokens_kept in Ht. }
  assert (Heq : ocr_line_boxes tokens min_conf min_size
                = regions_of_lines min_conf min_size tokens
                    (first_keys (filter (kept min_conf min_size) tokens))).
  { unfold ocr_line_boxes, regions_of_lines.
    rewrite (boxes_of_lines_flat_map min_size
               (fun K => line_region min_size
                           (line_tokens min_conf min_size K tokens))).
    - rewrite fold_lines_order. cbn [map app]. rewrite filter_all; reflexivity.
    - intros K d Hin.
      destruct (fold_lines_values min_conf min_size tokens [] K d (NoDup_nil _) Hin)
        as [(d0 & [] & _)|(_ & t0 & rest & Hl & ->)].
      rewrite Hl. reflexivity. }
  split; [exact Heq|]. split; [exact Hnone|]. split; [|split].
  - intros Hall. rewrite Heq. unfold regions_of_lines. clear Heq.
    generalize (first_keys (filter (kept min_conf min_size) tokens)).
    intros ks. induction ks as [|K ks IH]; [reflexivity|].
    cbn [flat_map]. rewrite (Hnone K (Hall K)), IH. reflexivity.
  - intros K Hne Hd.
    destruct (line_tokens min_conf min_size K tokens) as [|t0 rest] eqn:El;
      [contradiction|].
    assert (Hk : forall t, In t (t0 :: rest) -> kept min_conf min_size t = true).
    { intros t Ht. rewrite <- El in Ht. now apply line_tokens_kept in Ht. }
    rewrite (line_region_kept min_conf min_size t0 rest Hk), Hd.
    eexists. split; [reflexivity|]. cbn [box_text box_x box_y box_w box_h].
    split; [reflexivity|].
    destruct (merge_tokens_bounds (first_line t0) rest) as [Hb Hin].
    cbn [first_line ln_x1 ln_x2 ln_y1 ln_y2] in Hb.
    intros t [<-|Ht].
    + lia.
    + specialize (Hin t Ht). lia.
  - intros t0 ts -> Hall Hd.
    assert (Hdig : existsb (fun t => has_digit (strip (tok_text t))) (t0 :: ts) = true).
    { unfold joined_text in Hd. now rewrite has_digit_concat, existsb_map_strip in Hd. }
    rewrite (single_line_box min_conf min_size t0 ts Hall Hdig).
    eexists. split; [reflexivity|]. cbn [box_text].
    rewrite merge_tokens_words. reflexivity.
Qed.

(** The two examples of the specification in one image: ["Settings"],
    ["Screen"], ["Time"] on a first line and ["7h"], ["35m"] on a
    second one give one region, with text ["7h 35m"]. *)
Lemma ocr_line_boxes_digit_lines_witness :
  exists b,
    ocr_line_boxes [mkToken "Settings" (Some 95%Q) 10 10 80 20 1 1 1;
                    mkToken "Screen" (Some 95%Q) 100 10 60 20 1 1 1;
                    mkToken "7h" (Some 95%Q) 10 40 20 20 1 1 2;
                    mkToken "Time" (Some 95%Q) 170 10 40 20 1 1 1;
                    mkToken "35m" (Some 95%Q) 34 40 30 20 1 1 2] 40 18 = [b] /\
    box_text b = "7h 35m" /\ box_x b = 10 /\ box_y b = 40 /\
    box_w b = 54 /\ box_h b = 20.
Proof.
  destruct (ocr_line_boxes_digit_lines 40 18
              [mkToken "Settings" (Some 95%Q) 10 10 80 20 1 1 1;
               mkToken "Screen" (Some 95%Q) 100 10 60 20 1 1 1;
               mkToken "7h" (Some 95%Q) 10 40 20 20 1 1 2;
               mkToken "Time" (Some 95%Q) 170 10 40 20 1 1 1;
               mkToken "35m" (Some 95%Q) 34 40 30 20 1 1 2])
    as (Heq & _).
  rewrite Heq. eexists. split; [vm_compute; reflexivity|].
  repeat split; reflexivity.
Defined.
